(** * yasm_build.py: a shallow embedding of the build-orchestration script

    The script is one linear pipeline: parse flags, probe the platform,
    list patches, confirm, clean, clone and patch, configure, build,
    install, sign, package, tear down.  Everything it does is an effect on
    the host: printing, reading standard input, reading and changing the
    file system, and running external programs.  The embedding threads an
    explicit [world] through a small state-and-exit monad; the external
    programs (git, cmake, ninja, codesign, signtool, the shell) are black
    boxes, given as a parameter of the development. *)

From Stdlib Require Import String Ascii ZArith Lia Bool.
From Stdlib Require Import Sorting.Sorted Sorting.Permutation.
From stdpp Require Import gmap strings.

Local Open Scope Z_scope.
Local Open Scope nat_scope.
Local Open Scope string_scope.
Local Open Scope list_scope.

(** ** The fragment of Python's [str]/[bytes] API that the script uses.

    Python [bytes] are byte strings; a Python [str] is represented by its
    UTF-8 encoding, so both are Rocq [string]s.  Comparison of [str] by code
    point coincides with byte-wise comparison of the UTF-8 encodings. *)
Module Py.

Definition dquote : string := String (ascii_of_nat 34) EmptyString.
Definition squote : string := String (ascii_of_nat 39) EmptyString.
Definition backslash : ascii := ascii_of_nat 92.
Definition slash : ascii := ascii_of_nat 47.
Definition CR : ascii := ascii_of_nat 13.
Definition LF : ascii := ascii_of_nat 10.
Definition CRLF : string := String CR (String LF EmptyString).

(** [s.startswith(p)] *)
Definition startswith (s p : string) : bool := String.prefix p s.

(** [s.endswith(suf)] *)
Fixpoint endswith (s suf : string) : bool :=
  if String.eqb s suf then true
  else match s with
       | EmptyString => false
       | String _ s' => endswith s' suf
       end.

(** [sub in s] *)
Fixpoint contains (sub s : string) : bool :=
  if String.prefix sub s then true
  else match s with
       | EmptyString => false
       | String _ s' => contains sub s'
       end.

(** membership of a character in a set of characters given as a string *)
Fixpoint mem (c : ascii) (chars : string) : bool :=
  match chars with
  | EmptyString => false
  | String d chars' => if Ascii.eqb c d then true else mem c chars'
  end.

Fixpoint lstrip_by (P : ascii -> bool) (s : string) : string :=
  match s with
  | EmptyString => EmptyString
  | String c s' => if P c then lstrip_by P s' else s
  end.

Fixpoint rstrip_by (P : ascii -> bool) (s : string) : string :=
  match s with
  | EmptyString => EmptyString
  | String c s' =>
      match rstrip_by P s' with
      | EmptyString => if P c then EmptyString else String c EmptyString
      | r => String c r
      end
  end.

(** [s.strip(chars)] *)
Definition strip (chars s : string) : string :=
  rstrip_by (fun c => mem c chars) (lstrip_by (fun c => mem c chars) s).

(** ASCII whitespace, as removed by [bytes.strip()] and (on ASCII text)
    by [str.strip()] *)
Definition is_space (c : ascii) : bool :=
  let n := nat_of_ascii c in
  Nat.eqb n 32 || (Nat.leb 9 n && Nat.leb n 13).

(** [s.strip()] *)
Definition strip_ws (s : string) : string :=
  rstrip_by is_space (lstrip_by is_space s).

(** [s.replace(old, new)] for a non-empty [old]: occurrences are found
    left to right and do not overlap.  [skip] counts the characters of a
    matched occurrence still to be dropped. *)
Fixpoint replace_from (old new : string) (skip : nat) (s : string) : string :=
  match s with
  | EmptyString => EmptyString
  | String c s' =>
      match skip with
      | S k => replace_from old new k s'
      | O =>
          if String.prefix old s
          then new +:+ replace_from old new (String.length old - 1) s'
          else String c (replace_from old new 0 s')
      end
  end.

(** with an empty [old], Python inserts [new] before every character and
    at the end *)
Fixpoint intersperse (new s : string) : string :=
  match s with
  | EmptyString => new
  | String c s' => new +:+ String c (intersperse new s')
  end.

Definition replace (old new s : string) : string :=
  match old with
  | EmptyString => intersperse new s
  | _ => replace_from old new 0 s
  end.

(** [s.split(sep)] for a non-empty [sep]; [cur] is the field being read,
    reversed *)
Fixpoint split_from (sep : string) (skip : nat) (cur : list ascii) (s : string)
  : list string :=
  match s with
  | EmptyString => [string_of_list_ascii (rev cur)]
  | String c s' =>
      match skip with
      | S k => split_from sep k cur s'
      | O =>
          if String.prefix sep s
          then string_of_list_ascii (rev cur)
                 :: split_from sep (String.length sep - 1) [] s'
          else split_from sep 0 (c :: cur) s'
      end
  end.

Definition split (sep s : string) : list string := split_from sep 0 [] s.

(** [sep.join(parts)] *)
Definition join (sep : string) (parts : list string) : string :=
  String.concat sep parts.

Definition lower_ascii (c : ascii) : ascii :=
  let n := nat_of_ascii c in
  if Nat.leb 65 n && Nat.leb n 90 then ascii_of_nat (n + 32) else c.

Definition upper_ascii (c : ascii) : ascii :=
  let n := nat_of_ascii c in
  if Nat.leb 97 n && Nat.leb n 122 then ascii_of_nat (n - 32) else c.

Fixpoint map_chars (f : ascii -> ascii) (s : string) : string :=
  match s with
  | EmptyString => EmptyString
  | String c s' => String (f c) (map_chars f s')
  end.

(** [s.lower()] and [s.upper()], on the ASCII letters *)
Definition lower : string -> string := map_chars lower_ascii.
Definition upper : string -> string := map_chars upper_ascii.

(** index of the last ['.'] of [s]: [s.rfind('.')], [None] for -1 *)
Fixpoint rfind_dot (s : string) : option nat :=
  match s with
  | EmptyString => None
  | String c s' =>
      match rfind_dot s' with
      | Some i => Some (S i)
      | None => if Ascii.eqb c "."%char then Some 0 else None
      end
  end.

End Py.

(** ** The file system

    A path is the list of its components below the root of the volume.  A
    directory binds names to nodes; the bindings are kept in listing order
    and the first binding of a name is the entry of that name.  Names are
    path components (no separator, not [.] or [..]).  The model has regular
    files and directories only: no symbolic links, no special files and no
    directory permissions.  A file carries the outcome of the executable
    test [os.access(f, os.X_OK)] and its bytes. *)
Definition path := list string.

#[warnings="-register-all"]
Inductive node : Type :=
| File (xok : bool) (data : string)
| Dir (entries : list (string * node)).

Module FS.

Fixpoint assoc (n : string) (es : list (string * node)) : option node :=
  match es with
  | [] => None
  | (m, t) :: es' => if String.eqb m n then Some t else assoc n es'
  end.

(** bind [n] to [t]: replace the entry of that name, or add one at the end *)
Fixpoint set_assoc (n : string) (t : node) (es : list (string * node))
  : list (string * node) :=
  match es with
  | [] => [(n, t)]
  | (m, u) :: es' =>
      if String.eqb m n then (n, t) :: es' else (m, u) :: set_assoc n t es'
  end.

(** unbind [n] *)
Fixpoint del_assoc (n : string) (es : list (string * node))
  : list (string * node) :=
  match es with
  | [] => []
  | (m, u) :: es' =>
      if String.eqb m n then del_assoc n es' else (m, u) :: del_assoc n es'
  end.

Fixpoint inb (n : string) (l : list string) : bool :=
  match l with
  | [] => false
  | m :: l' => if String.eqb m n then true else inb n l'
  end.

(** the entries of a directory, each name once, in listing order *)
Fixpoint listing (seen : list string) (es : list (string * node))
  : list (string * node) :=
  match es with
  | [] => []
  | (n, t) :: es' =>
      if inb n seen then listing seen es' else (n, t) :: listing (n :: seen) es'
  end.

Definition is_dir (t : node) : bool :=
  match t with Dir _ => true | File _ _ => false end.

Definition child (n : string) (t : node) : option node :=
  match t with
  | Dir es => assoc n es
  | File _ _ => None
  end.

Fixpoint lookup (p : path) (t : node) : option node :=
  match p with
  | [] => Some t
  | c :: p' =>
      match child c t with
      | Some t' => lookup p' t'
      | None => None
      end
  end.

Definition exists_ (p : path) (t : node) : bool :=
  match lookup p t with Some _ => true | None => false end.

(** change the directory that holds the last component of [p]; [None] when
    that directory does not exist (or [p] is the root) *)
Fixpoint modify (f : string -> list (string * node) -> option (list (string * node)))
    (p : path) (t : node) : option node :=
  match p, t with
  | [], _ => None
  | _, File _ _ => None
  | [n], Dir es =>
      match f n es with
      | Some es' => Some (Dir es')
      | None => None
      end
  | c :: p', Dir es =>
      match assoc c es with
      | Some t' =>
          match modify f p' t' with
          | Some t'' => Some (Dir (set_assoc c t'' es))
          | None => None
          end
      | None => None
      end
  end.

(** create or replace the entry at [p] *)
Definition put (p : path) (n : node) : node -> option node :=
  modify (fun name es => Some (set_assoc name n es)) p.

(** delete the entry at [p], with everything below it *)
Definition remove (p : path) : node -> option node :=
  modify (fun name es =>
            match assoc name es with
            | Some _ => Some (del_assoc name es)
            | None => None
            end) p.

(** a chain of fresh directories [c1/c2/.../cn], the last one empty *)
Fixpoint chain (p : path) : node :=
  match p with
  | [] => Dir []
  | c :: p' => Dir [(c, chain p')]
  end.

(** create the directories of [p] that are missing; [None] when a
    component of [p] is a file *)
Fixpoint mkdir_p (p : path) (t : node) : option node :=
  match t with
  | File _ _ => None
  | Dir es =>
      match p with
      | [] => Some t
      | c :: p' =>
          match assoc c es with
          | Some t' =>
              match mkdir_p p' t' with
              | Some t'' => Some (Dir (set_assoc c t'' es))
              | None => None
              end
          | None => Some (Dir (set_assoc c (chain p') es))
          end
      end
  end.

(** [os.scandir]: the sub-directory names and the other names, in listing
    order *)
Definition dirs_of (es : list (string * node)) : list string :=
  map fst (List.filter (fun e => is_dir (snd e)) (listing [] es)).
Definition files_of (es : list (string * node)) : list string :=
  map fst (List.filter (fun e => negb (is_dir (snd e))) (listing [] es)).
Definition names_of (es : list (string * node)) : list string :=
  map fst (listing [] es).

(** resolution of a POSIX path string against the tree, from [cwd] when
    the string is relative: [None] when the kernel would fail the lookup *)
Fixpoint resolve_from (t : node) (cur : path) (comps : list string) : option path :=
  match comps with
  | [] => match lookup cur t with Some _ => Some cur | None => None end
  | c :: comps' =>
      if String.eqb c "" || String.eqb c "." then
        match lookup cur t with
        | Some (Dir _) => resolve_from t cur comps'
        | _ => None
        end
      else if String.eqb c ".." then
        match lookup cur t with
        | Some (Dir _) => resolve_from t (removelast cur) comps'
        | _ => None
        end
      else resolve_from t (cur ++ [c]) comps'
  end.

Definition resolve (cwd : path) (s : string) (t : node) : option path :=
  match s with
  | EmptyString => None
  | _ => resolve_from t (if Py.startswith s "/" then [] else cwd) (Py.split "/" s)
  end.

End FS.

(** ** The host, the world and the events of a run *)

(** What the script learns from [sys.platform] and [__file__]:
    [base_dir] is [Path(__file__).resolve().parent]; [drive] is the drive
    of [base_dir] on Windows (as in [C:]); [cwd] is the working directory,
    against which a relative path string is resolved. *)
Record host := {
  platform : string;
  drive : string;
  base_dir : path;
  cwd : path
}.

(** an external program invocation: [subprocess.call/run/check_output] *)
Record call := {
  via_shell : bool;
  argv : list string;
  workdir : option string
}.

(** [zipfile.ZipInfo], the fields the script sets *)
Record zipinfo := {
  filename : string;
  compress_type : Z;
  external_attr : Z
}.

Inductive event : Type :=
| Print (text : string)
| Input (prompt : string) (answer : option string)
| Call (c : call) (before : node) (result : option Z)
| ZipWrite (archive : string) (info : zipinfo) (data : string).

(** [stdin] holds the lines still to be read; [trace] is everything the run
    has done so far, oldest first.  A [Call] event keeps the file system as
    it was when the program was started and the exit status ([None] when the
    program could not be started). *)
Record world := {
  fs : node;
  environ : gmap string string;
  stdin : list string;
  trace : list event
}.

Definition boot (t : node) (env : gmap string string) (lines : list string) : world :=
  {| fs := t; environ := env; stdin := lines; trace := [] |}.

Definition log (e : event) (w : world) : world :=
  {| fs := fs w; environ := environ w; stdin := stdin w; trace := trace w ++ [e] |}.

Definition set_fs (t : node) (w : world) : world :=
  {| fs := t; environ := environ w; stdin := stdin w; trace := trace w |}.

Definition set_environ (env : gmap string string) (w : world) : world :=
  {| fs := fs w; environ := env; stdin := stdin w; trace := trace w |}.

Definition set_stdin (lines : list string) (w : world) : world :=
  {| fs := fs w; environ := environ w; stdin := lines; trace := trace w |}.

(** what an external program does: whether it could be started at all
    (only looked at without a shell), its exit status, what it wrote to its
    standard output, and the file system it leaves behind *)
Record reply := {
  launched : bool;
  returncode : Z;
  output : string;
  fs_after : node
}.

(** The black boxes.  [os_exec] is the behaviour of external programs,
    which may depend on everything that happened before (the [trace]), on
    the environment and on the file system.  [glob_glob] is [glob.glob];
    [bytes_decode] is [bytes.decode()] (UTF-8), [None] when it raises;
    [zip_empty] and [zip_append] are the archive format: the bytes of an
    archive without entries, and of an archive with one more entry. *)
Record externals := {
  os_exec : call -> world -> reply;
  glob_glob : string -> world -> list string;
  bytes_decode : string -> option string;
  zip_empty : string;
  zip_append : string -> zipinfo -> string -> string
}.

Inductive exn : Type :=
| FileNotFoundError | FileExistsError | NotADirectoryError | IsADirectoryError
| OSError | EOFError | KeyError | ValueError | UnicodeDecodeError
| CalledProcessError.

(** How a piece of the script ends: it falls through with a value, calls
    [sys.exit], dies of an uncaught exception, or (in the model only) a
    directory walk exhausts its fuel. *)
Inductive outcome (A : Type) : Type :=
| Ok (a : A)
| Exit (code : Z)
| Raise (e : exn)
| OutOfFuel.
Arguments Ok {A} a.
Arguments Exit {A} code.
Arguments Raise {A} e.
Arguments OutOfFuel {A}.


Definition M (A : Type) : Type := world -> outcome A * world.

Definition ret {A} (a : A) : M A := fun w => (Ok a, w).

Definition bind {A B} (m : M A) (k : A -> M B) : M B :=
  fun w =>
    match m w with
    | (Ok a, w') => k a w'
    | (Exit c, w') => (Exit c, w')
    | (Raise e, w') => (Raise e, w')
    | (OutOfFuel, w') => (OutOfFuel, w')
    end.

Declare Scope script_scope.
Delimit Scope script_scope with script.
Notation "x <- m ;; k" := (bind m (fun x => k))
  (at level 100, m at next level, right associativity) : script_scope.
Notation "m ;; k" := (bind m (fun _ => k))
  (at level 100, right associativity) : script_scope.
Local Open Scope script_scope.

Definition raise {A} (e : exn) : M A := fun w => (Raise e, w).
Definition sys_exit {A} (code : Z) : M A := fun w => (Exit code, w).
Definition out_of_fuel {A} : M A := fun w => (OutOfFuel, w).
Definition gets {A} (f : world -> A) : M A := fun w => (Ok (f w), w).
Definition when (b : bool) (m : M unit) : M unit := if b then m else ret tt.

(** [for x in xs: body] *)
Fixpoint for_each {A} (xs : list A) (body : A -> M unit) : M unit :=
  match xs with
  | [] => ret tt
  | x :: xs' => body x ;; for_each xs' body
  end.

(** [print(text)] *)
Definition print (text : string) : M unit := fun w => (Ok tt, log (Print text) w).

(** [input(prompt)]: [EOFError] at the end of standard input *)
Definition input (prompt : string) : M string :=
  fun w =>
    match stdin w with
    | [] => (Raise EOFError, log (Input prompt None) w)
    | l :: rest => (Ok l, log (Input prompt (Some l)) (set_stdin rest w))
    end.

(** *** [pathlib], [os] and [shutil] on the tree *)

(** [p.exists()] *)
Definition path_exists (p : path) : M bool :=
  fun w => (Ok (FS.exists_ p (fs w)), w).

(** [p.mkdir()]: the parent has to be there, [p] must not *)
Definition path_mkdir (p : path) : M unit :=
  fun w =>
    match FS.lookup p (fs w) with
    | Some _ => (Raise FileExistsError, w)
    | None =>
        match FS.put p (Dir []) (fs w) with
        | Some t => (Ok tt, set_fs t w)
        | None => (Raise FileNotFoundError, w)
        end
    end.

(** [p.mkdir(parents=True)]: missing parents are created, but [p] itself
    must not exist ([exist_ok] is left at [False]) *)
Definition path_mkdir_parents (p : path) : M unit :=
  fun w =>
    match FS.lookup p (fs w) with
    | Some _ => (Raise FileExistsError, w)
    | None =>
        match FS.mkdir_p p (fs w) with
        | Some t => (Ok tt, set_fs t w)
        | None => (Raise NotADirectoryError, w)
        end
    end.

(** [shutil.rmtree(p)] *)
Definition rmtree (p : path) : M unit :=
  fun w =>
    match FS.lookup p (fs w) with
    | Some (Dir _) =>
        match FS.remove p (fs w) with
        | Some t => (Ok tt, set_fs t w)
        | None => (Raise OSError, w)
        end
    | Some (File _ _) => (Raise NotADirectoryError, w)
    | None => (Raise FileNotFoundError, w)
    end.

(** [p.unlink()] *)
Definition path_unlink (p : path) : M unit :=
  fun w =>
    match FS.lookup p (fs w) with
    | Some (File _ _) =>
        match FS.remove p (fs w) with
        | Some t => (Ok tt, set_fs t w)
        | None => (Raise OSError, w)
        end
    | Some (Dir _) => (Raise IsADirectoryError, w)
    | None => (Raise FileNotFoundError, w)
    end.

(** [p.iterdir()], as names *)
Definition path_iterdir (p : path) : M (list string) :=
  fun w =>
    match FS.lookup p (fs w) with
    | Some (Dir es) => (Ok (FS.names_of es), w)
    | Some (File _ _) => (Raise NotADirectoryError, w)
    | None => (Raise FileNotFoundError, w)
    end.

(** [p.glob('*')], as names: nothing when [p] is not a directory *)
Definition path_glob_star (p : path) : M (list string) :=
  fun w =>
    match FS.lookup p (fs w) with
    | Some (Dir es) => (Ok (FS.names_of es), w)
    | _ => (Ok [], w)
    end.

(** [os.access(p, os.X_OK)] *)
Definition os_access_x (p : path) : M bool :=
  fun w =>
    match FS.lookup p (fs w) with
    | Some (File x _) => (Ok x, w)
    | Some (Dir _) => (Ok true, w)
    | None => (Ok false, w)
    end.

(** [open(p, 'rb').read()] *)
Definition read_all (p : path) : M string :=
  fun w =>
    match FS.lookup p (fs w) with
    | Some (File _ data) => (Ok data, w)
    | Some (Dir _) => (Raise IsADirectoryError, w)
    | None => (Raise FileNotFoundError, w)
    end.

(** [open(p, 'rb').read(n)] *)
Definition read_head (n : nat) (p : path) : M string :=
  data <- read_all p ;; ret (String.substring 0 n data).

(** [os.walk(top)], top-down.  The walk is lazy: a directory is listed when
    the iteration reaches it, so what it yields depends on what the loop
    body did to the file system before.  [pending] are the directories
    still to be visited; one unit of [fuel] is spent per directory. *)
Fixpoint os_walk (fuel : nat) (pending : list path)
    (body : path -> list string -> list string -> M unit) : M unit :=
  match pending with
  | [] => ret tt
  | top :: rest =>
      match fuel with
      | O => out_of_fuel
      | S fuel' =>
          fun w =>
            match FS.lookup top (fs w) with
            | Some (Dir es) =>
                (body top (FS.dirs_of es) (FS.files_of es) ;;
                 os_walk fuel' (map (fun d => top ++ [d]) (FS.dirs_of es) ++ rest) body) w
            | _ => os_walk fuel' rest body w
            end
      end
  end.

(** [bytes.decode('charmap')]: every byte is the code point of that number
    (Latin-1), here written back in UTF-8 *)
Fixpoint charmap_decode (s : string) : string :=
  match s with
  | EmptyString => EmptyString
  | String c s' =>
      let n := nat_of_ascii c in
      if Nat.ltb n 128 then String c (charmap_decode s')
      else String (ascii_of_nat (192 + n / 64))
             (String (ascii_of_nat (128 + n mod 64)) (charmap_decode s'))
  end.

(** [shlex.quote] *)
Definition shlex_safe (c : ascii) : bool :=
  let n := nat_of_ascii c in
  (Nat.leb 48 n && Nat.leb n 57) || (Nat.leb 65 n && Nat.leb n 90)
  || (Nat.leb 97 n && Nat.leb n 122) || Py.mem c "_@%+=:,./-".

Fixpoint all_chars (P : ascii -> bool) (s : string) : bool :=
  match s with
  | EmptyString => true
  | String c s' => P c && all_chars P s'
  end.

Definition shlex_quote (s : string) : string :=
  match s with
  | EmptyString => Py.squote +:+ Py.squote
  | _ =>
      if all_chars shlex_safe s then s
      else Py.squote
           +:+ Py.replace Py.squote
                 (Py.squote +:+ Py.dquote +:+ Py.squote +:+ Py.dquote +:+ Py.squote) s
           +:+ Py.squote
  end.

(** [PurePath.suffix] of a file name: the text from the last dot on, when
    that dot is neither the first nor the last character *)
Definition suffix (name : string) : string :=
  match Py.rfind_dot name with
  | Some i =>
      if Nat.ltb 0 i && Nat.ltb i (String.length name - 1)
      then String.substring i (String.length name - i) name
      else ""
  | None => ""
  end.

(** the parsed command line, [args = parser.parse_args()]; [jobs] is
    [str(args.jobs)] and exists on non-Windows hosts only *)
Record args := {
  no_clone : bool;
  clean : bool;
  prompt : bool;
  install : bool;
  patch : option (list string);
  universal : bool;
  sign : bool;
  jobs : string
}.

Definition msvc_build : string := "14.28".
Definition vs_version : string := "2019".
Definition yasm_version : string := "1.3.0".

Definition nl (s : string) : string := String Py.LF s.
Definition yes_no (b : bool) : string := if b then "YES" else "NO".

(** ** The script *)
Section Script.

Variable h : host.
Variable X : externals.

Definition is_win : bool := Py.startswith (platform h) "win".
Definition is_win32 : bool := String.eqb (platform h) "win32".
Definition is_darwin : bool := String.eqb (platform h) "darwin".

(** [os.sep]: [os.name] is ['nt'] exactly when [sys.platform] is ['win32'] *)
Definition os_sep : string := if is_win32 then "\" else "/".
Definition anchor : string := if is_win32 then drive h +:+ "\" else "/".

(** [str(p)] and [os.fspath(p)] of an absolute [Path] *)
Definition str_path (p : path) : string := anchor +:+ Py.join os_sep p.

(** [os.path.join(a, b)] for a [b] without drive: a rooted [b] replaces
    [a]; otherwise one separator is put between the two unless [a] is
    empty or ends with one *)
Definition os_path_join (a b : string) : string :=
  if is_win32 then
    if Py.startswith b "\" || Py.startswith b "/" then b
    else if String.eqb a "" || Py.endswith a "\" || Py.endswith a "/" then a +:+ b
    else a +:+ "\" +:+ b
  else
    if Py.startswith b "/" then b
    else if String.eqb a "" || Py.endswith a "/" then a +:+ b
    else a +:+ "/" +:+ b.

(** [os.path.exists(s)] for a POSIX path string *)
Definition os_path_exists (s : string) : M bool :=
  fun w =>
    match FS.resolve (cwd h) s (fs w) with
    | Some _ => (Ok true, w)
    | None => (Ok false, w)
    end.

(** [os.environ[key]] and [os.environ[key] = value]; Windows keeps the
    names of variables in upper case *)
Definition environ_key (key : string) : string :=
  if is_win32 then Py.upper key else key.

Definition environ_getitem (key : string) : M string :=
  fun w =>
    match environ w !! environ_key key with
    | Some v => (Ok v, w)
    | None => (Raise KeyError, w)
    end.

Definition environ_setitem (key value : string) : M unit :=
  fun w =>
    if String.eqb key "" then (Raise ValueError, w)
    else (Ok tt, set_environ (<[environ_key key := value]> (environ w)) w).

Definition decode (b : string) : M string :=
  match bytes_decode X b with
  | Some s => ret s
  | None => raise UnicodeDecodeError
  end.

(** start an external program and wait for it; without a shell, a
    program that cannot be started raises *)
Definition popen (c : call) : M (Z * string) :=
  fun w =>
    let r := os_exec X c w in
    if via_shell c || launched r
    then (Ok (returncode r, output r),
          log (Call c (fs w) (Some (returncode r))) (set_fs (fs_after r) w))
    else (Raise FileNotFoundError, log (Call c (fs w) None) w).

(** [subprocess.call(argv, cwd=dir)] *)
Definition subprocess_call (argv : list string) (dir : option string) : M Z :=
  r <- popen {| via_shell := false; argv := argv; workdir := dir |} ;;
  ret (fst r).

(** [subprocess.call(cmd, shell=True)] *)
Definition subprocess_call_shell (cmd : string) : M Z :=
  r <- popen {| via_shell := true; argv := [cmd]; workdir := None |} ;;
  ret (fst r).

(** [subprocess.check_output(...)]: a non-zero status raises *)
Definition check_output (c : call) : M string :=
  r <- popen c ;;
  if Z.eqb (fst r) 0 then ret (snd r) else raise CalledProcessError.

(** lines 20-27 *)
Definition remove_dir (p : path) : M unit :=
  if is_win32 then
    _ <- subprocess_call_shell
           ("rmdir /S /Q " +:+ Py.dquote +:+ str_path p +:+ Py.dquote) ;;
    ret tt
  else rmtree p.

(** lines 30-34 *)
Definition keychain_unlocker : M bool :=
  home <- environ_getitem "HOME" ;;
  let keychain_unlocker := home +:+ "/unlock-keychain" in
  e <- os_path_exists keychain_unlocker ;;
  if e then
    rc <- subprocess_call [keychain_unlocker] None ;;
    ret (Z.eqb rc 0)
  else ret false.

(** lines 37-52 *)
Definition mac_sign (path : string) (deep force : bool) : M bool :=
  unlocked <- keychain_unlocker ;;
  if negb unlocked then ret false
  else
    let args := ["codesign"] in
    let args := args ++ (if deep then ["--deep"] else []) in
    let args := args ++ (if force then ["-f"] else []) in
    let args := args ++ ["--options"; "runtime"; "--timestamp"; "-s"; "Developer ID"] in
    files <- (if Py.endswith path ".dmg" then ret [path]
              else gets (glob_glob X path)) ;;
    rc <- subprocess_call (args ++ files) None ;;
    ret (Z.eqb rc 0).

Definition timeServers : list string :=
  ["http://timestamp.digicert.com"; "http://timestamp.comodoca.com/rfc3161"].
Definition signTool : string :=
  "c:\Program Files (x86)\Windows Kits\10\bin\10.0.18362.0\x64\signtool.exe".

(** [os.path.expandvars(r"%USERPROFILE%\signingcerts\codesign.pfx")]: an
    unset variable is left as it is written *)
Definition signingCert (w : world) : string :=
  match environ w !! environ_key "USERPROFILE" with
  | Some v => v +:+ "\signingcerts\codesign.pfx"
  | None => "%USERPROFILE%\signingcerts\codesign.pfx"
  end.

(** lines 59-70: the loop over the time servers, left at the first
    server with which signtool succeeds *)
Definition signtool_call (cert timeServer path : string) : call :=
  {| via_shell := true;
     argv := [signTool; "sign"; "/fd"; "sha256"; "/f"; cert;
              "/tr"; timeServer; "/td"; "sha256"; path];
     workdir := None |}.

Fixpoint try_timeServers (cert : string) (servers : list string) (path : string)
  : M bool :=
  match servers with
  | [] =>
      print ("Failed to sign file " +:+ path) ;;
      ret false
  | timeServer :: servers' =>
      proc <- popen (signtool_call cert timeServer path) ;;
      if Z.eqb (fst proc) 0 then
        print ("Signed " +:+ path) ;;
        ret true
      else
        print ("Signing " +:+ path +:+ " with timeserver: " +:+ timeServer
               +:+ " failed. Trying next server. " +:+ charmap_decode (snd proc)) ;;
        try_timeServers cert servers' path
  end.

(** lines 55-70 *)
Definition signWindowsFiles (path : string) : M bool :=
  signingCert <- gets signingCert ;;
  try_timeServers signingCert timeServers path.

(** lines 89-109 *)
Definition make_cmd : string := "ninja".
Definition parallel (a : args) : list string :=
  if is_win then [] else ["-j"; jobs a].
Definition cmake_generator_array : list string := ["-G"; "Ninja"].

Definition vcvars_command : string :=
  "call " +:+ Py.dquote
  +:+ "C:\Program Files (x86)\Microsoft Visual Studio\" +:+ vs_version
  +:+ "\Professional\VC\Auxiliary\Build\vcvars64.bat" +:+ Py.dquote
  +:+ " -vcvars_ver=" +:+ msvc_build +:+ " && set".

(** lines 99-105, the body of the loop over the lines *)
Definition import_line (line : string) : M unit :=
  let line := Py.strip_ws line in
  if negb (Py.contains "=" line) then ret tt
  else
    let parts := Py.split "=" line in
    key <- decode (hd "" parts) ;;
    value <- decode (Py.join "=" (tl parts)) ;;
    environ_setitem key value.

Definition import_vcvars : M unit :=
  if is_win then
    vcvars <- check_output {| via_shell := true; argv := [vcvars_command];
                              workdir := None |} ;;
    for_each (Py.split Py.CRLF vcvars) import_line
  else ret tt.

(** lines 111-122 *)
Definition clt_sdk : path :=
  ["Library"; "Developer"; "CommandLineTools"; "SDKs"; "MacOSX.sdk"].

Definition find_sysroot : M (option string) :=
  if is_darwin then
    clt <- path_exists clt_sdk ;;
    sysroot <-
      (if clt then
         xcode <- path_exists ["Applications"; "Xcode.app"] ;;
         when xcode
           (print "!! Xcode and CommandLineTools both installed. Defaulting to CommandLineTools but the build may fail.") ;;
         ret "/Library/Developer/CommandLineTools/SDKs/MacOSX.sdk"
       else
         out <- check_output {| via_shell := false; argv := ["xcode-select"; "-p"];
                                workdir := None |} ;;
         s <- decode out ;;
         ret (Py.strip_ws s +:+ "/Platforms/MacOSX.platform/Developer/SDKs/MacOSX.sdk")) ;;
    print ("Sysroot is                   " +:+ sysroot) ;;
    ret (Some sysroot)
  else ret None.

(** lines 124-130 *)
Definition yasm_dir : path := base_dir h ++ ["build"].
Definition source_path : path := yasm_dir ++ ["src"].
Definition build_path : path := source_path ++ ["build"].
Definition artifact_path : path := base_dir h ++ ["artifacts"].
Definition install_path : path := yasm_dir ++ ["install"; "yasm"; yasm_version].
Definition patches_path : path := base_dir h ++ ["patches"].

(** lines 132-139 *)
Definition print_plan (a : args) : M unit :=
  print ("Build path will be           " +:+ str_path build_path) ;;
  print ("Build products path will be  " +:+ str_path install_path) ;;
  print ("Clean build directory:       " +:+ yes_no (clean a)) ;;
  print ("Universal build:             " +:+ yes_no (universal a)) ;;
  print ("Install to home directory:   " +:+ yes_no (install a)) ;;
  print ("Codesigning:                 " +:+ yes_no (sign a)) ;;
  print "".

(** [sorted(patches_path.iterdir())].  The entries are paths of one
    directory, so they compare as their names do: by code point, and
    case-folded on Windows.  [sorted] is stable. *)
Definition path_key (name : string) : string :=
  if is_win32 then Py.lower name else name.

Fixpoint insert_sorted (x : string) (l : list string) : list string :=
  match l with
  | [] => [x]
  | y :: l' =>
      if String.leb (path_key x) (path_key y) then x :: l
      else y :: insert_sorted x l'
  end.

Definition sorted (l : list string) : list string :=
  fold_right insert_sorted [] l.

Definition is_patch (name : string) : bool := String.eqb (suffix name) ".patch".

(** the patch names chosen from a directory listing *)
Definition select_patches (names : list string) : list string :=
  List.filter is_patch (sorted names).

(** lines 141-145; without symbolic links [patch.resolve()] is [patch] *)
Definition discover_patches : M (list path) :=
  names <- path_iterdir patches_path ;;
  ret (map (fun name => patches_path ++ [name]) (select_patches names)).

(** lines 147-148 *)
Definition announce_patches (patches : list path) : M unit :=
  for_each patches (fun patch => print ("Apply patch: " +:+ str_path patch)).

(** lines 150-152 *)
Definition confirm (a : args) : M unit :=
  if prompt a then
    answer <- input (nl "Is this correct (y/n)? ") ;;
    if negb (String.eqb answer "y") then
      print "Aborted" ;;
      sys_exit 1%Z
    else ret tt
  else ret tt.

(** lines 154-155 *)
Definition prepare_artifacts : M unit :=
  e <- path_exists artifact_path ;;
  when (negb e) (path_mkdir_parents artifact_path).

(** lines 157-166 *)
Definition clean_stage (a : args) : M unit :=
  when (clean a)
    (olds <- path_glob_star artifact_path ;;
     for_each olds (fun f => path_unlink (artifact_path ++ [f])) ;;
     e <- path_exists build_path ;;
     when e (remove_dir build_path) ;;
     c <- path_exists (base_dir h ++ ["CMakeCache.txt"]) ;;
     when c (path_unlink (base_dir h ++ ["CMakeCache.txt"]))).

Definition overwrite_prompt : string :=
  nl "An install already exists at the target location. Overwrite? ".

(** lines 168-171 *)
Definition overwrite_check (a : args) : M unit :=
  e <- path_exists install_path ;;
  if e then
    if prompt a then
      answer <- input overwrite_prompt ;;
      if negb (String.eqb answer "y") then
        print "Aborted" ;;
        sys_exit 1%Z
      else ret tt
    else ret tt
  else ret tt.

(** lines 189-192, for one patch *)
Definition apply_patch (patch : path) : M unit :=
  print ("Applying patch " +:+ str_path patch +:+ "...") ;;
  rc <- subprocess_call ["git"; "apply"; str_path patch]
          (Some (str_path source_path)) ;;
  if negb (Z.eqb rc 0) then
    print "Failed to patch source" ;;
    sys_exit 1%Z
  else ret tt.

(** lines 188-192 *)
Definition apply_patches (patches : list path) : M unit :=
  for_each patches apply_patch.

(** lines 173-192 *)
Definition acquire (a : args) (patches : list path) : M unit :=
  if negb (no_clone a) then
    print (nl "Cloning yasm...") ;;
    e <- path_exists yasm_dir ;;
    when (negb e) (path_mkdir yasm_dir) ;;
    s <- path_exists source_path ;;
    when s (remove_dir source_path) ;;
    rc <- subprocess_call
            ["git"; "clone"; "https://github.com/yasm/yasm"; "--branch";
             "v" +:+ yasm_version; "--depth"; "1"; str_path source_path] None ;;
    (if negb (Z.eqb rc 0) then
       print "Failed to clone yasm git repository" ;;
       sys_exit 1%Z
     else ret tt) ;;
    rc <- subprocess_call ["git"; "checkout"; "v" +:+ yasm_version]
            (Some (str_path source_path)) ;;
    (if negb (Z.eqb rc 0) then
       print ("Failed to check out tag 'v" +:+ yasm_version +:+ "'") ;;
       sys_exit 1%Z
     else ret tt) ;;
    apply_patches patches
  else ret tt.

(** lines 198-214 *)
Definition cmake_params (a : args) (sysroot : option string)
  : list (string * string) :=
  [("CMAKE_BUILD_TYPE", "Release");
   ("BUILD_SHARED_LIBS", "OFF");
   ("CMAKE_INSTALL_PREFIX", str_path install_path)]
  ++ (if is_darwin then
        match sysroot with
        | Some s => [("CMAKE_OSX_SYSROOT", s)]
        | None => []
        end
        ++ [("CMAKE_OSX_DEPLOYMENT_TARGET", "10.14")]
        ++ (if universal a then [("CMAKE_OSX_ARCHITECTURES", "arm64;x86_64")] else [])
      else []).

Definition cmake_params_array (a : args) (sysroot : option string) : list string :=
  map (fun ov => "-D" +:+ fst ov +:+ "=" +:+ snd ov) (cmake_params a sysroot).

Definition cmake_argv (a : args) (sysroot : option string) : list string :=
  ["cmake"; str_path source_path] ++ cmake_params_array a sysroot
  ++ cmake_generator_array.

(** lines 194-221 *)
Definition configure (a : args) (sysroot : option string) : M unit :=
  print (nl "Configuring yasm...") ;;
  e <- path_exists build_path ;;
  when (negb e) (path_mkdir build_path) ;;
  print (Py.join " " (map shlex_quote (cmake_argv a sysroot))) ;;
  rc <- subprocess_call (cmake_argv a sysroot) (Some (str_path build_path)) ;;
  if negb (Z.eqb rc 0) then
    print "Failed to configure yasm build" ;;
    sys_exit 1%Z
  else ret tt.

(** lines 223-230 *)
Definition build (a : args) : M unit :=
  print (nl "Building yasm...") ;;
  e <- path_exists install_path ;;
  when e (remove_dir install_path) ;;
  path_mkdir_parents install_path ;;
  rc <- subprocess_call (make_cmd :: parallel a) (Some (str_path build_path)) ;;
  if negb (Z.eqb rc 0) then
    print "yasm failed to build" ;;
    sys_exit 1%Z
  else ret tt.

(** lines 233-236 *)
Definition install_stage : M unit :=
  print (nl "Installing yasm...") ;;
  rc <- subprocess_call [make_cmd; "install"] (Some (str_path build_path)) ;;
  if negb (Z.eqb rc 0) then
    print "yasm failed to install" ;;
    sys_exit 1%Z
  else ret tt.

(** the four bytes [b"\xca\xfe\xba\xbe"] of line 249 *)
Definition macho_magic : string :=
  String (ascii_of_nat 202) (String (ascii_of_nat 254)
    (String (ascii_of_nat 186) (String (ascii_of_nat 190) EmptyString))).

(** lines 243-254, for one file of a directory of the walk *)
Definition sign_darwin_file (top : path) (file : string) : M unit :=
  let file_path := os_path_join (str_path top) file in
  x <- os_access_x (top ++ [file]) ;;
  if negb x then ret tt
  else
    head <- read_head 4 (top ++ [file]) ;;
    if negb (String.eqb head macho_magic) then ret tt
    else
      signed <- mac_sign file_path false true ;;
      if negb signed then
        print ("Failed to sign " +:+ file_path) ;;
        sys_exit 1%Z
      else ret tt.

(** lines 258-263, for one file of a directory of the walk *)
Definition sign_windows_file (top : path) (file : string) : M unit :=
  if Py.endswith file ".exe" || Py.endswith file ".dll" then
    let file_path := os_path_join (str_path top) file in
    signed <- signWindowsFiles file_path ;;
    if negb signed then
      print ("Failed to sign " +:+ file_path) ;;
      sys_exit 1%Z
    else ret tt
  else ret tt.

(** lines 239-263 *)
Definition sign_stage (fuel : nat) (a : args) : M unit :=
  if sign a then
    if is_darwin then
      os_walk fuel [install_path]
        (fun top dirs files => for_each files (sign_darwin_file top))
    else if is_win then
      os_walk fuel [install_path]
        (fun top dirs files => for_each files (sign_windows_file top))
    else ret tt
  else ret tt.

(** [zipfile.ZipInfo(name)]: the name ends at the first NUL and is
    written with forward slashes *)
Fixpoint until_nul (s : string) : string :=
  match s with
  | EmptyString => EmptyString
  | String c s' => if Ascii.eqb c zero then EmptyString else String c (until_nul s')
  end.

Definition ZipInfo (name : string) : zipinfo :=
  let name := until_nul name in
  {| filename := if negb (String.eqb os_sep "/") && Py.contains os_sep name
                 then Py.replace os_sep "/" name else name;
     compress_type := 0;
     external_attr := 0 |}.

Definition ZIP_DEFLATED : Z := 8.
Definition mode_rwxr_xr_x : Z := 493.   (* 0o755 *)
Definition mode_rw_r__r__ : Z := 420.   (* 0o644 *)

Definition archive_path : path :=
  artifact_path ++ ["yasm-" +:+ yasm_version +:+ ".zip"].

(** [zipfile.ZipFile(p, 'w', ...)]: the file is created or truncated *)
Definition zip_open (p : path) : M unit :=
  fun w =>
    match FS.lookup p (fs w) with
    | Some (Dir _) => (Raise IsADirectoryError, w)
    | o =>
        let x := match o with Some (File x _) => x | _ => false end in
        match FS.put p (File x (zip_empty X)) (fs w) with
        | Some t => (Ok tt, set_fs t w)
        | None => (Raise FileNotFoundError, w)
        end
    end.

(** [z.writestr(info, data)] on the archive opened at [p] *)
Definition zip_writestr (p : path) (info : zipinfo) (data : string) : M unit :=
  fun w =>
    let t :=
      match FS.lookup p (fs w) with
      | Some (File x old) =>
          match FS.put p (File x (zip_append X old info data)) (fs w) with
          | Some t => t
          | None => fs w
          end
      | _ => fs w
      end in
    (Ok tt, log (ZipWrite (str_path p) info data) (set_fs t w)).

(** lines 270-283, for one file of a directory of the walk; the file is
    read at [os.path.join(root, file)], whose components are
    [top ++ [file]] *)
Definition archive_file (top : path) (relpath file : string) : M unit :=
  print ("Adding " +:+ relpath +:+ "/" +:+ file +:+ "...") ;;
  let file_path := top ++ [file] in
  let arc_name :=
    os_path_join (os_path_join (os_path_join "yasm" yasm_version) relpath) file in
  let info := ZipInfo arc_name in
  let info := {| filename := filename info; compress_type := ZIP_DEFLATED;
                 external_attr := external_attr info |} in
  x <- os_access_x file_path ;;
  let info := {| filename := filename info; compress_type := compress_type info;
                 external_attr := if x then Z.shiftl mode_rwxr_xr_x 16
                                  else Z.shiftl mode_rw_r__r__ 16 |} in
  data <- read_all file_path ;;
  zip_writestr archive_path info data.

(** lines 265-283 *)
Definition package (fuel : nat) : M unit :=
  print (nl "Creating archive...") ;;
  zip_open archive_path ;;
  os_walk fuel [install_path]
    (fun top dirs files =>
       let root := str_path top in
       let relpath := Py.replace (str_path install_path) "" root in
       let relpath := Py.strip "\/" relpath in
       for_each files (archive_file top relpath)).

(** lines 285-287 *)
Definition teardown (a : args) : M unit :=
  when (clean a)
    (print "Cleaning up..." ;;
     remove_dir source_path).

(** the whole script, from line 89 on *)
Definition main (fuel : nat) (a : args) : M unit :=
  import_vcvars ;;
  sysroot <- find_sysroot ;;
  print_plan a ;;
  patches <- discover_patches ;;
  announce_patches patches ;;
  confirm a ;;
  prepare_artifacts ;;
  clean_stage a ;;
  overwrite_check a ;;
  acquire a patches ;;
  configure a sysroot ;;
  build a ;;
  install_stage ;;
  sign_stage fuel a ;;
  package fuel ;;
  teardown a.

(** a run on a host with the given file system, environment and
    standard input *)
Definition run (fuel : nat) (a : args) (t : node) (env : gmap string string)
    (lines : list string) : outcome unit * world :=
  main fuel a (boot t env lines).

End Script.

(** * Reasoning about runs

    A piece of the script only ever adds events at the end of the trace.
    [produces P m] says that what [m] adds satisfies [P], from any world.
    Properties that are [local] (true of the empty list and kept by
    concatenation) compose along [bind]. *)
Definition extends (P : list event -> Prop) (w w' : world) : Prop :=
  exists evs, trace w' = trace w ++ evs /\ P evs.

Definition produces {A} (P : list event -> Prop) (m : M A) : Prop :=
  forall w, extends P w (snd (m w)).

Definition local (P : list event -> Prop) : Prop :=
  P [] /\ forall e1 e2, P e1 -> P e2 -> P (e1 ++ e2).

(** [m] adds nothing to the trace *)
Definition quiet {A} (m : M A) : Prop :=
  forall w, trace (snd (m w)) = trace w.

(** every added event satisfies [Q] *)
Definition emits {A} (Q : event -> Prop) (m : M A) : Prop :=
  produces (Forall Q) m.

(** two paths part ways at some component: neither is above the other *)
Fixpoint diverge (p q : path) : Prop :=
  match p, q with
  | a :: p', b :: q' => if String.eqb a b then diverge p' q' else True
  | _, _ => False
  end.

(** what [f] does to a directory concerns the one name it is given *)
Definition one_name (f : string -> list (string * node) -> option (list (string * node)))
  : Prop :=
  forall n es es', f n es = Some es' ->
  forall m, m <> n -> FS.assoc m es' = FS.assoc m es.

(** ** Vocabulary of the claims *)

(** the build-tool invocation of line 228 *)
Definition is_build_call (h : host) (a : args) (c : call) : Prop :=
  argv c = make_cmd :: parallel h a.

(** when the build tool is started, the install path is an empty directory *)
Definition clean_at_build (h : host) (a : args) (e : event) : Prop :=
  match e with
  | Call c before _ =>
      is_build_call h a c -> FS.lookup (install_path h) before = Some (Dir [])
  | _ => True
  end.

(** not a read of standard input *)
Definition not_input (e : event) : Prop :=
  match e with
  | Input _ _ => False
  | _ => True
  end.

(** two command lines that differ at most in what was given to [--patch] *)
Definition same_but_patch (a1 a2 : args) : Prop :=
  no_clone a1 = no_clone a2 /\ clean a1 = clean a2 /\ prompt a1 = prompt a2 /\
  install a1 = install a2 /\ universal a1 = universal a2 /\ sign a1 = sign a2 /\
  jobs a1 = jobs a2.

(** [m] leaves what is at path [p] as it is *)
Definition keeps {A} (p : path) (m : M A) : Prop :=
  forall w, FS.lookup p (fs (snd (m w))) = FS.lookup p (fs w).

(** [m] does not touch the file system at all *)
Definition still {A} (m : M A) : Prop :=
  forall w, fs (snd (m w)) = fs w.

(** the external programs the script runs before the overwrite check:
    the compiler-environment script (Windows), [xcode-select] (macOS) and
    the shell's [rmdir] of the build directory (Windows, when cleaning) *)
Definition early_call (h : host) (c : call) : Prop :=
  c = {| via_shell := true; argv := [vcvars_command]; workdir := None |}
  \/ c = {| via_shell := false; argv := ["xcode-select"; "-p"]; workdir := None |}
  \/ c = {| via_shell := true;
            argv := ["rmdir /S /Q " +:+ Py.dquote +:+ str_path h (build_path h)
                     +:+ Py.dquote];
            workdir := None |}.

(** those programs leave the install path alone *)
Definition spares_install (h : host) (X : externals) : Prop :=
  forall c w, early_call h c ->
    FS.lookup (install_path h) (fs_after (os_exec X c w))
    = FS.lookup (install_path h) (fs w).

(** not an answer to the overwrite question *)
Definition not_overwrite_answer (e : event) : Prop :=
  match e with
  | Input text (Some _) => text <> overwrite_prompt
  | _ => True
  end.

(** the operator was asked whether to overwrite and did not answer [y] *)
Definition declines (evs : list event) : Prop :=
  exists answer, answer <> "y" /\ In (Input overwrite_prompt (Some answer)) evs.

(** from wherever [m] starts: if the operator declines the overwrite, [m]
    ends in [sys.exit(1)] with the install path as it was *)
Definition safe (h : host) (m : M unit) : Prop :=
  forall w, exists evs,
    trace (snd (m w)) = trace w ++ evs /\
    (declines evs ->
     fst (m w) = Exit 1%Z /\
     FS.lookup (install_path h) (fs (snd (m w))) = FS.lookup (install_path h) (fs w)).



(** ** The patches of a run, read off its trace *)





















(** ** Signing on Windows, read off the trace *)

(** [c] is the signtool invocation for [path] with time server [server] *)
Definition attempt_of (server path : string) (c : call) : Prop :=
  exists cert, c = signtool_call cert server path.








(** ** Signing on macOS, read off the trace *)

(** the invocation of the keychain unlock helper *)
Definition is_unlock (c : call) : Prop :=
  exists home,
    c = {| via_shell := false; argv := [home +:+ "/unlock-keychain"];
           workdir := None |}.

(** an invocation of the signing tool *)
Definition is_codesign (c : call) : Prop :=
  exists rest, c = {| via_shell := false; argv := "codesign" :: rest; workdir := None |}.


(** not the report of a failed signing *)
Definition no_failure_report (e : event) : Prop :=
  match e with
  | Print text => forall p, text <> "Failed to sign " +:+ p
  | _ => True
  end.



(** the report of a failed signing *)
Definition failed_signing (e : event) : Prop :=
  exists p, e = Print ("Failed to sign " +:+ p).

Definition is_print (e : event) : Prop :=
  match e with
  | Print _ => True
  | _ => False
  end.

(** how a run is cut short: [sys.exit(code)] or an uncaught exception *)
Inductive ending : Type :=
| Exits (code : Z)
| Raises (e : exn).

Definition ends {A} (s : ending) (o : outcome A) : Prop :=
  match s, o with
  | Exits code, Exit code' => code = code'
  | Raises e, Raise e' => e = e'
  | _, _ => False
  end.

Definition nothing (e : event) : Prop := False.

(** after an event of the kind [bad], [m] ends the way [s] says, and what
    it still adds to the trace is of the kind [rest] *)
Definition final {A} (bad : event -> Prop) (s : ending) (rest : event -> Prop)
    (m : M A) : Prop :=
  forall w, exists evs,
    trace (snd (m w)) = trace w ++ evs /\
    forall pre e post, evs = pre ++ e :: post -> bad e ->
      ends s (fst (m w)) /\ Forall rest post.


(** what one call of [mac_sign] adds to the trace, and what it returns *)
Inductive unlock_then_sign : list event -> outcome bool -> Prop :=
| us_no_helper : unlock_then_sign [] (Ok false)
| us_no_home : unlock_then_sign [] (Raise KeyError)
| us_not_started c before :
    is_unlock c -> unlock_then_sign [Call c before None] (Raise FileNotFoundError)
| us_refused c before rc :
    is_unlock c -> rc <> 0%Z ->
    unlock_then_sign [Call c before (Some rc)] (Ok false)
| us_signed c before c' before' rc :
    is_unlock c -> is_codesign c' ->
    unlock_then_sign [Call c before (Some 0%Z); Call c' before' (Some rc)]
      (Ok (Z.eqb rc 0))
| us_no_codesign c before c' before' :
    is_unlock c -> is_codesign c' ->
    unlock_then_sign [Call c before (Some 0%Z); Call c' before' None]
      (Raise FileNotFoundError).





(** ** Mach-O files *)

Definition bytes4 (a b c d : nat) : string :=
  String (ascii_of_nat a) (String (ascii_of_nat b)
    (String (ascii_of_nat c) (String (ascii_of_nat d) EmptyString))).

(** how a Mach-O file for one architecture starts: [fe ed fa ce],
    [ce fa ed fe] (32 bits) and [fe ed fa cf], [cf fa ed fe] (64 bits) *)
Definition thin_macho_magics : list string :=
  [bytes4 254 237 250 206; bytes4 206 250 237 254;
   bytes4 254 237 250 207; bytes4 207 250 237 254].

(** ** The compiler environment on Windows *)

(** the command of lines 94-96 *)
Definition vcvars_call : call :=
  {| via_shell := true; argv := [vcvars_command]; workdir := None |}.





(** ** The archive *)

(** an archive entry is written to [yasm-<version>.zip] in the artifact
    directory, deflated, with the attributes of an executable or of a
    plain file *)
Definition zip_entry_ok (h : host) (e : event) : Prop :=
  match e with
  | ZipWrite archive info _ =>
      archive = str_path h (artifact_path h ++ ["yasm-" +:+ yasm_version +:+ ".zip"]) /\
      compress_type info = ZIP_DEFLATED /\
      (external_attr info = Z.shiftl mode_rwxr_xr_x 16 \/
       external_attr info = Z.shiftl mode_rw_r__r__ 16)
  | _ => True
  end.

(** ** Concrete hosts, for the examples

    A checkout in [/work] (or [C:\work]) with a few entries in [patches],
    and external programs that do the least one expects of them: [git
    clone] creates the source directory, [ninja install] writes a given
    tree at the install path, a chosen set of command lines fails, and the
    compiler-environment script prints a given text. *)
Module Demo.

Definition linux : host :=
  {| platform := "linux"; drive := ""; base_dir := ["work"]; cwd := ["work"] |}.
Definition darwin : host :=
  {| platform := "darwin"; drive := ""; base_dir := ["work"]; cwd := ["work"] |}.
Definition windows : host :=
  {| platform := "win32"; drive := "C:"; base_dir := ["work"]; cwd := ["work"] |}.

Definition patches_dir : node :=
  Dir [("b.patch", File false "second");
       ("notes.txt", File false "not a patch");
       ("a.patch", File false "first");
       (".patch", File false "no stem")].

(** a fresh checkout *)
Definition checkout : node :=
  Dir [("work", Dir [("patches", patches_dir)])].

(** a checkout that was built before: sources and an install are there *)
Definition built : node :=
  Dir [("work",
        Dir [("patches", patches_dir);
             ("build",
              Dir [("src", Dir [("CMakeLists.txt", File false "project(yasm)");
                                ("build", Dir [("build.ninja", File false "rules")])]);
                   ("install",
                    Dir [("yasm",
                          Dir [("1.3.0",
                                Dir [("bin", Dir [("yasm", File true "old")])])])])])])].

Record behaviour := {
  installs : node;
  fails : call -> bool;
  prints : string
}.

Definition or_same (o : option node) (t : node) : node :=
  match o with Some t' => t' | None => t end.

Definition exec (h : host) (b : behaviour) (c : call) (w : world) : reply :=
  {| launched := true;
     returncode := if fails b c then 1%Z else 0%Z;
     output := if via_shell c then prints b else "";
     fs_after :=
       match argv c with
       | "git" :: "clone" :: _ =>
           or_same (FS.put (source_path h) (Dir []) (fs w)) (fs w)
       | ["ninja"; "install"] =>
           or_same (FS.put (install_path h) (installs b) (fs w)) (fs w)
       | _ => fs w
       end |}.

Definition externals_of (h : host) (b : behaviour) : externals :=
  {| os_exec := exec h b;
     glob_glob := fun pattern _ => [pattern];
     bytes_decode := fun s => Some s;
     zip_empty := "";
     zip_append := fun old info data => old +:+ filename info +:+ ";" |}.

Definition never (c : call) : bool := false.

(** the installed tree of a plain build *)
Definition plain_install : node :=
  Dir [("bin", Dir [("yasm", File true "ELF")]);
       ("share", Dir [("README", File false "yasm")])].

Definition plain : behaviour :=
  {| installs := plain_install; fails := never; prints := "" |}.

Definition flags : args :=
  {| no_clone := false; clean := true; prompt := true; install := true;
     patch := None; universal := false; sign := false; jobs := "4" |}.

Definition call_of (e : event) : call :=
  match e with
  | Call c _ _ => c
  | _ => {| via_shell := false; argv := []; workdir := None |}
  end.

Definition before_of (e : event) : node :=
  match e with
  | Call _ t _ => t
  | _ => Dir []
  end.

Definition result_of (e : event) : option Z :=
  match e with
  | Call _ _ r => r
  | _ => None
  end.

(** the [n]-th event of a trace *)
Definition event_at (n : nat) (tr : list event) : event :=
  nth n tr (Print "").

(** a rebuild on Linux over an earlier install, without cleaning, the
    operator answering [y] to both questions *)
Definition no_clean : args :=
  {| no_clone := false; clean := false; prompt := true; install := true;
     patch := None; universal := false; sign := false; jobs := "4" |}.

Definition rebuild : outcome unit * world :=
  run linux (externals_of linux plain) 8 no_clean built ∅ ["y"; "y"].

(** the operator confirms the plan and then declines the overwrite *)
Definition declined : outcome unit * world :=
  run linux (externals_of linux plain) 8 flags built ∅ ["y"; "n"].

(** the same without prompts *)
Definition unattended : args :=
  {| no_clone := false; clean := false; prompt := false; install := true;
     patch := None; universal := false; sign := false; jobs := "4" |}.

(** a build of the sources that are already there: [--no-clone] *)
Definition reuse : args :=
  {| no_clone := true; clean := false; prompt := false; install := true;
     patch := None; universal := false; sign := false; jobs := "4" |}.

(** a first build in a fresh checkout, the operator answering [y] *)
Definition first_build : outcome unit * world :=
  run linux (externals_of linux plain) 8 flags checkout ∅ ["y"].

(** a Windows build with signing *)
Definition windows_install : node :=
  Dir [("bin", Dir [("yasm.exe", File false "MZ")]);
       ("share", Dir [("README", File false "yasm")])].

Definition mentions (word : string) (c : call) : bool :=
  existsb (String.eqb word) (argv c).






Definition with_patch (p : option (list string)) (a : args) : args :=
  {| no_clone := no_clone a; clean := clean a; prompt := prompt a;
     install := install a; patch := p; universal := universal a;
     sign := sign a; jobs := jobs a |}.

(** macOS: a home directory, with or without the unlock helper, and the
    command line tools' SDK *)
Definition mac_checkout (helper : bool) : node :=
  Dir [("work", Dir [("patches", Dir [])]);
       ("Library",
        Dir [("Developer",
              Dir [("CommandLineTools",
                    Dir [("SDKs", Dir [("MacOSX.sdk", Dir [])])])])]);
       ("Users",
        Dir [("builder",
              Dir (if helper
                   then [("unlock-keychain", File true "security unlock-keychain")]
                   else []))])].

Definition mac_env : gmap string string := {[ "HOME" := "/Users/builder" ]}.

(** a universal binary starts with [ca fe ba be]; a binary for one
    architecture (here 64 bits, little endian) with [cf fa ed fe] *)
Definition fat_binary : string := macho_magic +:+ "x86_64+arm64".

Definition thin_magic : string :=
  String (ascii_of_nat 207) (String (ascii_of_nat 250)
    (String (ascii_of_nat 237) (String (ascii_of_nat 254) EmptyString))).

Definition thin_binary : string := thin_magic +:+ "arm64".

Definition universal_install : node :=
  Dir [("bin", Dir [("yasm", File true fat_binary);
                    ("vsyasm", File true fat_binary);
                    ("yasm.sh", File true "#!/bin/sh")])].

Definition thin_install : node :=
  Dir [("bin", Dir [("yasm", File true thin_binary)])].

Definition universal_build : behaviour :=
  {| installs := universal_install; fails := never; prints := "" |}.

Definition thin_build : behaviour :=
  {| installs := thin_install; fails := never; prints := "" |}.



Definition mac_signing : args :=
  {| no_clone := false; clean := false; prompt := false; install := true;
     patch := None; universal := true; sign := true; jobs := "9" |}.

(** signing on macOS: all goes well *)
Definition mac_signed : outcome unit * world :=
  run darwin (externals_of darwin universal_build) 8 mac_signing (mac_checkout true)
    mac_env [].



(** no helper, and a binary for one architecture *)
Definition mac_thin : outcome unit * world :=
  run darwin (externals_of darwin thin_build) 8 mac_signing (mac_checkout false)
    mac_env [].

(** no helper, and a universal binary *)
Definition mac_no_helper : outcome unit * world :=
  run darwin (externals_of darwin universal_build) 8 mac_signing (mac_checkout false)
    mac_env [].

(** a binary for one architecture, with the helper in place *)
Definition mac_thin_signing : outcome unit * world :=
  run darwin (externals_of darwin thin_build) 8 mac_signing (mac_checkout true)
    mac_env [].

(** an installed tree with a directory whose name starts with a backslash *)
Definition backslash_install : node :=
  Dir [("bin", Dir [("yasm", File true "ELF")]);
       ("\doc", Dir [("README", File false "yasm")])].

Definition backslash_names : behaviour :=
  {| installs := backslash_install; fails := never; prints := "" |}.

Definition backslash_build : outcome unit * world :=
  run linux (externals_of linux backslash_names) 8 unattended checkout ∅ [].

(** the archive entries of a run: name, compression and attributes *)
Definition entries (r : outcome unit * world) : list (string * Z * Z) :=
  omap (fun e => match e with
                 | ZipWrite _ info _ =>
                     Some (filename info, compress_type info, external_attr info)
                 | _ => None
                 end) (trace (snd r)).

(** the compiler-environment script prints no assignment and succeeds *)
Definition no_assignments : behaviour :=
  {| installs := windows_install;
     fails := never;
     prints := "The input line is too long." +:+ Py.CRLF |}.

Definition garbled_build : outcome unit * world :=
  run windows (externals_of windows no_assignments) 8 unattended checkout ∅ [].



End Demo.

(** ** Vocabulary of further properties *)

(** the shell command of [remove_dir] on Windows *)
Definition rmdir_call (h : host) (p : path) : call :=
  {| via_shell := true;
     argv := ["rmdir /S /Q " +:+ Py.dquote +:+ str_path h p +:+ Py.dquote];
     workdir := None |}.

(** The programs the script starts, each with the platform and the flags
    under which it does. *)
Inductive known_call (h : host) (a : args) : call -> Prop :=
| kc_vcvars :
    is_win h = true -> known_call h a vcvars_call
| kc_xcode_select :
    is_darwin h = true ->
    known_call h a {| via_shell := false; argv := ["xcode-select"; "-p"];
                      workdir := None |}
| kc_rmdir_build :
    is_win32 h = true -> clean a = true ->
    known_call h a (rmdir_call h (build_path h))
| kc_rmdir_source :
    is_win32 h = true -> no_clone a = false \/ clean a = true ->
    known_call h a (rmdir_call h (source_path h))
| kc_rmdir_install :
    is_win32 h = true -> known_call h a (rmdir_call h (install_path h))
| kc_clone :
    no_clone a = false ->
    known_call h a
      {| via_shell := false;
         argv := ["git"; "clone"; "https://github.com/yasm/yasm"; "--branch";
                  "v" +:+ yasm_version; "--depth"; "1"; str_path h (source_path h)];
         workdir := None |}
| kc_checkout :
    no_clone a = false ->
    known_call h a
      {| via_shell := false; argv := ["git"; "checkout"; "v" +:+ yasm_version];
         workdir := Some (str_path h (source_path h)) |}
| kc_apply patch :
    no_clone a = false ->
    known_call h a
      {| via_shell := false; argv := ["git"; "apply"; patch];
         workdir := Some (str_path h (source_path h)) |}
| kc_cmake sysroot :
    known_call h a
      {| via_shell := false; argv := cmake_argv h a sysroot;
         workdir := Some (str_path h (build_path h)) |}
| kc_build :
    known_call h a
      {| via_shell := false; argv := make_cmd :: parallel h a;
         workdir := Some (str_path h (build_path h)) |}
| kc_install :
    known_call h a
      {| via_shell := false; argv := [make_cmd; "install"];
         workdir := Some (str_path h (build_path h)) |}
| kc_unlock home :
    is_darwin h = true -> sign a = true ->
    known_call h a
      {| via_shell := false; argv := [home +:+ "/unlock-keychain"];
         workdir := None |}
| kc_codesign files :
    is_darwin h = true -> sign a = true ->
    known_call h a
      {| via_shell := false;
         argv := ["codesign"; "-f"; "--options"; "runtime"; "--timestamp";
                  "-s"; "Developer ID"] ++ files;
         workdir := None |}
| kc_signtool cert server path :
    is_win h = true -> sign a = true -> In server timeServers ->
    known_call h a (signtool_call cert server path).

Definition known_event (h : host) (a : args) (e : event) : Prop :=
  match e with
  | Call c _ _ => known_call h a c
  | _ => True
  end.

Module Runs.

(** a build of sources that are already there, without questions *)
Definition reused : outcome unit * world :=
  run Demo.linux (Demo.externals_of Demo.linux Demo.plain) 8 Demo.reuse
    Demo.built ∅ [].

(** [cmake] fails *)
Definition cmake_fails : Demo.behaviour :=
  {| Demo.installs := Demo.plain_install;
     Demo.fails := Demo.mentions "cmake";
     Demo.prints := "" |}.

Definition broken_configure : outcome unit * world :=
  run Demo.linux (Demo.externals_of Demo.linux cmake_fails) 8 Demo.unattended
    Demo.checkout ∅ [].

(** an install tree in place and an empty artifact directory *)
Definition installed : world :=
  boot
    (Dir [("work",
           Dir [("artifacts", Dir []);
                ("build",
                 Dir [("install",
                       Dir [("yasm", Dir [("1.3.0", Demo.plain_install)])])])])])
    ∅ [].

(** what an earlier build left: an archive, a build directory and a cache *)
Definition stale : world :=
  boot
    (Dir [("work",
           Dir [("patches", Demo.patches_dir);
                ("artifacts", Dir [("yasm-linux.zip", File false "old");
                                   ("yasm-macos.zip", File false "older")]);
                ("CMakeCache.txt", File false "CMAKE_BUILD_TYPE=Release");
                ("build",
                 Dir [("src",
                       Dir [("CMakeLists.txt", File false "project(yasm)");
                            ("build", Dir [("build.ninja", File false "rules")])])])])])
    ∅ [].

(** the same with a directory among the artifacts *)
Definition nested : world :=
  boot
    (Dir [("work",
           Dir [("artifacts", Dir [("yasm-linux.zip", File false "old");
                                   ("unpacked", Dir []);
                                   ("yasm-macos.zip", File false "older")]);
                ("build",
                 Dir [("src",
                       Dir [("build", Dir [("build.ninja", File false "rules")])])])])])
    ∅ [].




(** Windows: the shell's [rmdir] fails and deletes nothing *)
Definition rmdir_fails : Demo.behaviour :=
  {| Demo.installs := Demo.plain_install;
     Demo.fails := via_shell;
     Demo.prints := "" |}.

End Runs.

(** a program whose exit status the script checks after it returns: [git],
    [cmake], the build tool and [codesign] *)
Definition checked_call (c : call) : Prop :=
  via_shell c = false /\
  exists prog rest,
    argv c = prog :: rest /\ In prog ["git"; "cmake"; make_cmd; "codesign"].

(** such a program returned a status other than 0 *)
Definition failed_step (e : event) : Prop :=
  exists c before rc,
    e = Call c before (Some rc) /\ rc <> 0%Z /\ checked_call c.

(** an answer other than [y] to a question of the script *)
Definition refusal (e : event) : Prop :=
  exists text answer, e = Input text (Some answer) /\ answer <> "y".

(** standard input ends at a question of the script *)
Definition no_answer (e : event) : Prop :=
  exists text, e = Input text None.

Definition aborted (e : event) : Prop := e = Print "Aborted".

(** ** The steps of a run that ends well *)

Definition clone_call (h : host) : call :=
  {| via_shell := false;
     argv := ["git"; "clone"; "https://github.com/yasm/yasm"; "--branch";
              "v" +:+ yasm_version; "--depth"; "1"; str_path h (source_path h)];
     workdir := None |}.

Definition checkout_call (h : host) : call :=
  {| via_shell := false; argv := ["git"; "checkout"; "v" +:+ yasm_version];
     workdir := Some (str_path h (source_path h)) |}.

Definition is_cmake_call (h : host) (a : args) (c : call) : Prop :=
  exists sysroot,
    c = {| via_shell := false; argv := cmake_argv h a sysroot;
           workdir := Some (str_path h (build_path h)) |}.

Definition build_call (h : host) (a : args) : call :=
  {| via_shell := false; argv := make_cmd :: parallel h a;
     workdir := Some (str_path h (build_path h)) |}.

Definition install_call (h : host) : call :=
  {| via_shell := false; argv := [make_cmd; "install"];
     workdir := Some (str_path h (build_path h)) |}.

(** the steps of the pipeline whose status is checked, in the order of
    the script; [git apply] is left out *)
Definition steps (h : host) (a : args) : list (call -> Prop) :=
  (if no_clone a then [] else [eq (clone_call h); eq (checkout_call h)])
  ++ [is_cmake_call h a; eq (build_call h a); eq (install_call h)].

(** a program of the kind [P] returned 0 *)
Definition succeeded (P : call -> Prop) (e : event) : Prop :=
  exists c before, e = Call c before (Some 0%Z) /\ P c.

(** the events [evs] contain, in this order, a success of each kind *)
Definition went_through (Ps : list (call -> Prop)) (evs : list event) : Prop :=
  exists es, Forall2 succeeded Ps es /\ sublist es evs.

(** when [m] ends well, what it added to the trace satisfies [P] *)
Definition passes {A} (P : list event -> Prop) (m : M A) : Prop :=
  forall w x w', m w = (Ok x, w') ->
    exists evs, trace w' = trace w ++ evs /\ P evs.

(** ** The state of the file system when a program starts *)

(** when [git clone] starts, there is nothing at the source path *)
Definition clone_target_absent (h : host) (e : event) : Prop :=
  match e with
  | Call c before _ =>
      c = clone_call h -> FS.lookup (source_path h) before = None
  | _ => True
  end.

(** ** What packaging writes *)

(** the path of a directory of the walk relative to the install path, as
    lines 268-269 compute it *)
Definition relpath_of (h : host) (top : path) : string :=
  Py.strip "\/" (Py.replace (str_path h (install_path h)) "" (str_path h top)).

(** the entry written for the file [file] of the directory [top] *)
Definition entry_of (h : host) (top : path) (file : string) (x : bool)
    (data : string) : event :=
  ZipWrite (str_path h (archive_path h))
    {| filename :=
         filename
           (ZipInfo h
              (os_path_join h
                 (os_path_join h (os_path_join h "yasm" yasm_version)
                    (relpath_of h top)) file));
       compress_type := ZIP_DEFLATED;
       external_attr := if x then Z.shiftl mode_rwxr_xr_x 16
                        else Z.shiftl mode_rw_r__r__ 16 |}
    data.

(** the bytes of an archive that held [old] after the entries of [evs]
    were added to it *)
Definition archive_from (X : externals) (old : string) (evs : list event) : string :=
  fold_left (fun acc e =>
               match e with
               | ZipWrite _ info data => zip_append X acc info data
               | _ => acc
               end) evs old.

(** a path at or below the install path *)
Definition under_install (h : host) (p : path) : Prop :=
  exists q, p = install_path h ++ q.

(** there is a file at the path of the archive *)
Definition is_archive (h : host) (w : world) : Prop :=
  exists ax old, FS.lookup (archive_path h) (fs w) = Some (File ax old).

(** [w'] comes from [w] by adding entries to the archive: the trace grew by
    [evs], the archive holds what it held and then the entries of [evs],
    and nothing changed at or below the install path *)
Definition packed (h : host) (X : externals) (w w' : world) (evs : list event)
  : Prop :=
  trace w' = trace w ++ evs /\
  (forall ax old,
     FS.lookup (archive_path h) (fs w) = Some (File ax old) ->
     FS.lookup (archive_path h) (fs w')
     = Some (File ax (archive_from X old evs))) /\
  (forall q, FS.lookup (install_path h ++ q) (fs w')
             = FS.lookup (install_path h ++ q) (fs w)).

(** [e] is a printed line or the entry of a file below the install path of
    the file system [t] *)
Definition entry_of_tree (h : host) (t : node) (e : event) : Prop :=
  is_print e \/
  exists p f x data,
    under_install h p /\ FS.lookup (p ++ [f]) t = Some (File x data) /\
    e = entry_of h p f x data.

(** lines 267-283: what is done for one directory of the walk *)
Definition archive_directory (h : host) (X : externals) (top : path)
    (dirs files : list string) : M unit :=
  for_each files (archive_file h X top (relpath_of h top)).

(** not an archive entry *)
Definition not_entry (e : event) : Prop :=
  match e with
  | ZipWrite _ _ _ => False
  | _ => True
  end.

(** when [cmake] starts, the build directory is there *)
Definition build_path_present (h : host) (a : args) (e : event) : Prop :=
  match e with
  | Call c before _ =>
      is_cmake_call h a c -> FS.lookup (build_path h) before <> None
  | _ => True
  end.


(** ** The SDK on macOS *)

Definition xcode_select_call : call :=
  {| via_shell := false; argv := ["xcode-select"; "-p"]; workdir := None |}.

Definition clt_sysroot : string :=
  "/Library/Developer/CommandLineTools/SDKs/MacOSX.sdk".


Definition both_installed : string :=
  "!! Xcode and CommandLineTools both installed. Defaulting to CommandLineTools but the build may fail.".

(** the script from line 124 on, once the sysroot is known *)
Definition after_sysroot (h : host) (X : externals) (fuel : nat) (a : args)
    (sysroot : option string) : M unit :=
  print_plan h a ;;
  patches <- discover_patches h ;;
  announce_patches h patches ;;
  confirm a ;;
  prepare_artifacts h ;;
  clean_stage h X a ;;
  overwrite_check h a ;;
  acquire h X a patches ;;
  configure h X a sysroot ;;
  build h X a ;;
  install_stage h X ;;
  sign_stage h X fuel a ;;
  package h X fuel ;;
  teardown h X a.

(** the event is not a second [xcode-select], and if it is [cmake] then
    with this sysroot *)
Definition sysroot_settled (h : host) (a : args) (sysroot : option string)
    (e : event) : Prop :=
  match e with
  | Call c _ _ =>
      c <> xcode_select_call /\
      (is_cmake_call h a c -> argv c = cmake_argv h a sysroot)
  | _ => True
  end.

(** * Lemmas

    ** The trace logic *)
Lemma local_Forall (Q : event -> Prop) : local (Forall Q).
Proof.
  split; [constructor|]. intros e1 e2 H1 H2. apply Forall_app; auto.
Qed.

Lemma extends_refl P w : P [] -> extends P w w.
Proof. intros H0. exists []. rewrite app_nil_r. auto. Qed.

Lemma extends_trans P w1 w2 w3 :
  local P -> extends P w1 w2 -> extends P w2 w3 -> extends P w1 w3.
Proof.
  intros [_ Hcat] (e1 & E1 & P1) (e2 & E2 & P2).
  exists (e1 ++ e2). rewrite E2, E1, <- app_assoc. auto.
Qed.



Lemma quiet_produces {A} P (m : M A) : P [] -> quiet m -> produces P m.
Proof.
  intros H0 Hq w. exists []. rewrite app_nil_r. split; [apply Hq | exact H0].
Qed.

Lemma produces_ret {A} P (a : A) : P [] -> produces P (ret a).
Proof. intros H0 w. apply extends_refl, H0. Qed.

Lemma produces_bind {A B} P (m : M A) (k : A -> M B) :
  local P -> produces P m -> (forall a, produces P (k a)) ->
  produces P (bind m k).
Proof.
  intros HL Hm Hk w. unfold bind. specialize (Hm w).
  destruct (m w) as [[a | c | e |] w1]; simpl in *; try exact Hm.
  eapply extends_trans; [exact HL | exact Hm | apply Hk].
Qed.

Lemma produces_when P (b : bool) (m : M unit) :
  P [] -> produces P m -> produces P (when b m).
Proof. intros H0 Hm. destruct b; simpl; [exact Hm | apply produces_ret, H0]. Qed.

Lemma produces_for_each {A} P (xs : list A) (body : A -> M unit) :
  local P -> (forall x, produces P (body x)) -> produces P (for_each xs body).
Proof.
  intros HL Hb. induction xs as [| x xs IH]; simpl.
  - apply produces_ret, HL.
  - apply produces_bind; auto.
Qed.

Lemma produces_os_walk P fuel pending body :
  local P -> (forall top dirs files, produces P (body top dirs files)) ->
  produces P (os_walk fuel pending body).
Proof.
  intros HL Hb. revert pending.
  induction fuel as [| fuel IH]; intros [| top rest]; simpl;
    try (apply produces_ret, HL).
  - intros w. apply extends_refl, HL.
  - intros w. destruct (FS.lookup top (fs w)) as [[x d | es] |]; try apply IH.
    apply produces_bind; auto.
Qed.

Lemma produces_print P text : P [Print text] -> produces P (print text).
Proof. intros H w. exists [Print text]. auto. Qed.

Lemma produces_input P text :
  (forall answer, P [Input text answer]) -> produces P (input text).
Proof.
  intros H w. unfold input. destruct (stdin w); simpl; eexists; split; eauto.
Qed.

Lemma produces_exit {A} P code : P [] -> produces P (@sys_exit A code).
Proof. intros H w. apply extends_refl, H. Qed.

Lemma produces_raise {A} P e : P [] -> produces P (@raise A e).
Proof. intros H w. apply extends_refl, H. Qed.

Lemma quiet_path_exists p : quiet (path_exists p).
Proof. intros w. reflexivity. Qed.

Lemma quiet_path_mkdir p : quiet (path_mkdir p).
Proof.
  intros w. unfold path_mkdir.
  destruct (FS.lookup p (fs w)); [reflexivity|].
  destruct (FS.put p (Dir []) (fs w)); reflexivity.
Qed.

Lemma quiet_path_mkdir_parents p : quiet (path_mkdir_parents p).
Proof.
  intros w. unfold path_mkdir_parents.
  destruct (FS.lookup p (fs w)); [reflexivity|].
  destruct (FS.mkdir_p p (fs w)); reflexivity.
Qed.

Lemma quiet_rmtree p : quiet (rmtree p).
Proof.
  intros w. unfold rmtree.
  destruct (FS.lookup p (fs w)) as [[x d | es] |]; try reflexivity.
  destruct (FS.remove p (fs w)); reflexivity.
Qed.

Lemma quiet_path_unlink p : quiet (path_unlink p).
Proof.
  intros w. unfold path_unlink.
  destruct (FS.lookup p (fs w)) as [[x d | es] |]; try reflexivity.
  destruct (FS.remove p (fs w)); reflexivity.
Qed.

Lemma quiet_path_iterdir p : quiet (path_iterdir p).
Proof.
  intros w. unfold path_iterdir.
  destruct (FS.lookup p (fs w)) as [[x d | es] |]; reflexivity.
Qed.

Lemma quiet_path_glob_star p : quiet (path_glob_star p).
Proof.
  intros w. unfold path_glob_star.
  destruct (FS.lookup p (fs w)) as [[x d | es] |]; reflexivity.
Qed.

Lemma quiet_os_access_x p : quiet (os_access_x p).
Proof.
  intros w. unfold os_access_x.
  destruct (FS.lookup p (fs w)) as [[x d | es] |]; reflexivity.
Qed.

Lemma quiet_read_all p : quiet (read_all p).
Proof.
  intros w. unfold read_all.
  destruct (FS.lookup p (fs w)) as [[x d | es] |]; reflexivity.
Qed.

Lemma quiet_read_head n p : quiet (read_head n p).
Proof.
  intros w. unfold read_head, bind. pose proof (quiet_read_all p w) as H.
  destruct (read_all p w) as [[a | c | e |] w1]; exact H.
Qed.

Lemma quiet_gets {A} (f : world -> A) : quiet (gets f).
Proof. intros w. reflexivity. Qed.

Lemma quiet_out_of_fuel {A} : quiet (@out_of_fuel A).
Proof. intros w. reflexivity. Qed.

Section ScriptLogic.

Variable h : host.
Variable X : externals.

Lemma quiet_os_path_exists s : quiet (os_path_exists h s).
Proof.
  intros w. unfold os_path_exists. destruct (FS.resolve _ _ _); reflexivity.
Qed.

Lemma quiet_environ_getitem k : quiet (environ_getitem h k).
Proof.
  intros w. unfold environ_getitem. destruct (environ w !! _); reflexivity.
Qed.

Lemma quiet_environ_setitem k v : quiet (environ_setitem h k v).
Proof.
  intros w. unfold environ_setitem. destruct (String.eqb k ""); reflexivity.
Qed.

Lemma quiet_decode b : quiet (decode X b).
Proof. intros w. unfold decode. destruct (bytes_decode X b); reflexivity. Qed.

Lemma quiet_zip_open p : quiet (zip_open X p).
Proof.
  intros w. unfold zip_open.
  destruct (FS.lookup p (fs w)) as [[x d | es] |]; try reflexivity;
    destruct (FS.put _ _ _); reflexivity.
Qed.

Lemma produces_popen P c :
  (forall before result, P [Call c before result]) -> produces P (popen X c).
Proof.
  intros H w. unfold popen.
  destruct (via_shell c || launched (os_exec X c w)); simpl; eexists; split; eauto.
Qed.

Lemma produces_zip_writestr P p info data :
  P [ZipWrite (str_path h p) info data] ->
  produces P (zip_writestr h X p info data).
Proof. intros H w. unfold zip_writestr. simpl. eexists; split; eauto. Qed.

End ScriptLogic.

(** one step of the decomposition of a piece of the script; [HL] proves
    that the property is local *)
Ltac produces_step HL :=
  lazymatch goal with
  | |- produces _ (bind _ _) => apply produces_bind; [exact HL | | intros ?]
  | |- produces _ (ret _) => apply produces_ret; apply (proj1 HL)
  | |- produces _ (when _ _) => apply produces_when; [apply (proj1 HL) |]
  | |- produces _ (for_each _ _) => apply produces_for_each; [exact HL | intros ?]
  | |- produces _ (os_walk _ _ _) =>
      apply produces_os_walk; [exact HL | intros ? ? ?]
  | |- produces _ (print _) => apply produces_print
  | |- produces _ (input _) => apply produces_input; intros ?
  | |- produces _ (sys_exit _) => apply produces_exit; apply (proj1 HL)
  | |- produces _ (raise _) => apply produces_raise; apply (proj1 HL)
  | |- produces _ (popen _ _) => apply produces_popen; intros ? ?
  | |- produces _ (zip_writestr _ _ _ _ _) => apply produces_zip_writestr
  | |- produces _ (if ?b then _ else _) => destruct b eqn:?
  | |- produces _ (match ?x with _ => _ end) => destruct x eqn:?
  | |- produces _ _ =>
      first
        [ apply quiet_produces;
          [ apply (proj1 HL)
          | first
              [ apply quiet_gets | apply quiet_out_of_fuel
              | apply quiet_path_exists | apply quiet_path_mkdir
              | apply quiet_path_mkdir_parents | apply quiet_rmtree
              | apply quiet_path_unlink | apply quiet_path_iterdir
              | apply quiet_path_glob_star | apply quiet_os_access_x
              | apply quiet_read_all | apply quiet_read_head
              | apply quiet_os_path_exists | apply quiet_environ_getitem
              | apply quiet_environ_setitem | apply quiet_decode
              | apply quiet_zip_open ] ]
        | progress
            unfold subprocess_call, subprocess_call_shell, check_output,
              remove_dir, keychain_unlocker, mac_sign, signWindowsFiles,
              import_line, import_vcvars, find_sysroot, print_plan,
              discover_patches, announce_patches, confirm, prepare_artifacts,
              clean_stage, overwrite_check, apply_patch, apply_patches, acquire,
              configure,
              build, install_stage, sign_darwin_file, sign_windows_file,
              sign_stage, archive_file, package, teardown, main ]
  end.

(** the next piece of a sequence: [tac] proves it, the rest stays as the goal *)
Ltac stage HL tac :=
  apply produces_bind; [exact HL | tac | intros ?].

(** ** The file system *)

Lemma assoc_set_assoc_eq n v es : FS.assoc n (FS.set_assoc n v es) = Some v.
Proof.
  induction es as [| [m u] es IH]; simpl.
  - rewrite String.eqb_refl. reflexivity.
  - destruct (String.eqb m n) eqn:E; simpl.
    + rewrite String.eqb_refl. reflexivity.
    + rewrite E. exact IH.
Qed.

Lemma assoc_set_assoc_ne n m v es :
  m <> n -> FS.assoc m (FS.set_assoc n v es) = FS.assoc m es.
Proof.
  intros Hne. induction es as [| [k u] es IH]; simpl.
  - destruct (String.eqb_spec n m); [congruence | reflexivity].
  - destruct (String.eqb_spec k n) as [-> | Hk]; simpl.
    + destruct (String.eqb_spec n m); [congruence | reflexivity].
    + destruct (String.eqb_spec k m); [reflexivity | exact IH].
Qed.

Lemma assoc_del_assoc_eq n es : FS.assoc n (FS.del_assoc n es) = None.
Proof.
  induction es as [| [m u] es IH]; simpl; [reflexivity|].
  destruct (String.eqb m n) eqn:E; simpl; [exact IH|].
  rewrite E. exact IH.
Qed.

Lemma assoc_del_assoc_ne n m es :
  m <> n -> FS.assoc m (FS.del_assoc n es) = FS.assoc m es.
Proof.
  intros Hne. induction es as [| [k u] es IH]; simpl; [reflexivity|].
  destruct (String.eqb_spec k n) as [-> | Hk]; simpl.
  - destruct (String.eqb_spec n m); [congruence | exact IH].
  - destruct (String.eqb_spec k m); [reflexivity | exact IH].
Qed.

Lemma lookup_chain p : FS.lookup p (FS.chain p) = Some (Dir []).
Proof.
  induction p as [| c p IH]; simpl; [reflexivity|].
  rewrite String.eqb_refl. exact IH.
Qed.

Lemma lookup_chain_diverge p q : diverge p q -> FS.lookup q (FS.chain p) = None.
Proof.
  revert q. induction p as [| a p IH]; intros [| b q]; simpl; try tauto.
  destruct (String.eqb a b) eqn:E; [|reflexivity].
  intros H. apply IH, H.
Qed.

(** after [mkdir(parents=True)] of a path that was not there, the path is
    an empty directory *)
Lemma mkdir_p_lookup p t t' :
  FS.mkdir_p p t = Some t' -> FS.lookup p t = None ->
  FS.lookup p t' = Some (Dir []).
Proof.
  revert t t'. induction p as [| c p IH]; intros [x d | es] t'; simpl;
    try discriminate.
  destruct (FS.assoc c es) as [tc |] eqn:Ec.
  - destruct (FS.mkdir_p p tc) as [tc' |] eqn:Em; [|discriminate].
    intros [= <-] Hl. simpl. rewrite assoc_set_assoc_eq. eapply IH; eauto.
  - intros [= <-] _. simpl. rewrite assoc_set_assoc_eq. apply lookup_chain.
Qed.

Lemma mkdir_p_frame p q t t' :
  diverge p q -> FS.mkdir_p p t = Some t' -> FS.lookup q t' = FS.lookup q t.
Proof.
  revert q t t'. induction p as [| a p IH]; intros [| b q] [x d | es] t';
    simpl; try tauto; try discriminate.
  destruct (String.eqb_spec a b) as [<- | Hab]; intros Hd.
  - destruct (FS.assoc a es) as [ta |] eqn:Ea.
    + destruct (FS.mkdir_p p ta) as [ta' |] eqn:Em; [|discriminate].
      intros [= <-]. simpl. rewrite assoc_set_assoc_eq, ?Ea. eapply IH; eauto.
    + intros [= <-]. simpl. rewrite assoc_set_assoc_eq, ?Ea.
      apply lookup_chain_diverge, Hd.
  - assert (Hl : forall v, FS.assoc b (FS.set_assoc a v es) = FS.assoc b es)
      by (intros v; apply assoc_set_assoc_ne; congruence).
    destruct (FS.assoc a es) as [ta |] eqn:Ea.
    + destruct (FS.mkdir_p p ta) as [ta' |] eqn:Em; [|discriminate].
      intros [= <-]. simpl. rewrite Hl. reflexivity.
    + intros [= <-]. simpl. rewrite Hl. reflexivity.
Qed.

Lemma modify_frame f p q t t' :
  one_name f -> diverge p q -> FS.modify f p t = Some t' ->
  FS.lookup q t' = FS.lookup q t.
Proof.
  intros Hf. revert q t t'.
  induction p as [| a p IH]; intros [| b q] [x d | es] t'; simpl;
    try tauto; try discriminate.
  - destruct p; discriminate.
  - destruct (String.eqb_spec a b) as [<- | Hab]; intros Hd.
    + destruct p as [| a' p]; [destruct Hd|].
      destruct (FS.assoc a es) as [ta |] eqn:Ea; [|discriminate].
      destruct (FS.modify f (a' :: p) ta) as [ta' |] eqn:Em; [|discriminate].
      intros [= <-]. simpl. rewrite assoc_set_assoc_eq, ?Ea. eapply IH; eauto.
    + destruct p as [| a' p].
      * destruct (f a es) as [es' |] eqn:Ef; [|discriminate].
        intros [= <-]. simpl. erewrite Hf; eauto.
      * destruct (FS.assoc a es) as [ta |] eqn:Ea; [|discriminate].
        destruct (FS.modify f (a' :: p) ta) as [ta' |] eqn:Em; [|discriminate].
        intros [= <-]. simpl. rewrite assoc_set_assoc_ne by congruence.
        reflexivity.
Qed.

Lemma put_frame p q n t t' :
  diverge p q -> FS.put p n t = Some t' -> FS.lookup q t' = FS.lookup q t.
Proof.
  apply modify_frame. intros name es es' [= <-] m Hm.
  apply assoc_set_assoc_ne, Hm.
Qed.

Lemma remove_frame p q t t' :
  diverge p q -> FS.remove p t = Some t' -> FS.lookup q t' = FS.lookup q t.
Proof.
  apply modify_frame. intros name es es' H m Hm.
  destruct (FS.assoc name es); [|discriminate]. injection H as <-.
  apply assoc_del_assoc_ne, Hm.
Qed.

Lemma diverge_app base p q : diverge (base ++ p) (base ++ q) <-> diverge p q.
Proof.
  induction base as [| c base IH]; simpl; [tauto|].
  rewrite String.eqb_refl. exact IH.
Qed.

Lemma diverge_sym p q : diverge p q -> diverge q p.
Proof.
  revert q. induction p as [| a p IH]; intros [| b q]; simpl; try tauto.
  rewrite (String.eqb_sym b a). destruct (String.eqb a b); auto.
Qed.

(** ** Pieces of the script *)

Lemma bind_assoc {A B C} (m : M A) (f : A -> M B) (k : B -> M C) w :
  bind (bind m f) k w = bind m (fun x => bind (f x) k) w.
Proof. unfold bind. destruct (m w) as [[a | c | e |] w1]; reflexivity. Qed.

Lemma length_append s t :
  String.length (s +:+ t) = String.length s + String.length t.
Proof.
  induction s as [| c s IH]; [reflexivity|].
  change (String c s +:+ t) with (String c (s +:+ t)). simpl. rewrite IH.
  reflexivity.
Qed.

Lemma produces_try_timeServers X P cert servers path :
  local P ->
  (forall s b r, P [Call (signtool_call cert s path) b r]) ->
  P [Print ("Failed to sign file " +:+ path)] ->
  P [Print ("Signed " +:+ path)] ->
  (forall s out, P [Print ("Signing " +:+ path +:+ " with timeserver: " +:+ s
                           +:+ " failed. Trying next server. " +:+ out)]) ->
  produces P (try_timeServers X cert servers path).
Proof.
  intros HL Hc Hf Hs Hn. induction servers as [| s servers IH]; simpl.
  - repeat produces_step HL. exact Hf.
  - repeat produces_step HL; auto.
Qed.

(** a program started in a known state of the file system *)
Lemma extends_popen_bind {B} X P c (k : Z * string -> M B) w :
  local P -> (forall r, P [Call c (fs w) r]) -> (forall x, produces P (k x)) ->
  extends P w (snd (bind (popen X c) k w)).
Proof.
  intros HL Hc Hk. unfold bind, popen.
  destruct (via_shell c || launched (os_exec X c w)); simpl.
  - eapply extends_trans; [exact HL | | apply Hk].
    eexists; split; [reflexivity | apply Hc].
  - eexists; split; [reflexivity | apply Hc].
Qed.

(** what follows [p.mkdir(parents=True)] starts with [p] an empty directory *)
Lemma produces_after_mkdir_parents {B} P p (k : unit -> M B) :
  local P ->
  (forall w, FS.lookup p (fs w) = Some (Dir []) -> extends P w (snd (k tt w))) ->
  produces P (bind (path_mkdir_parents p) k).
Proof.
  intros HL Hk w. unfold bind, path_mkdir_parents.
  destruct (FS.lookup p (fs w)) eqn:El; simpl; [apply extends_refl, HL|].
  destruct (FS.mkdir_p p (fs w)) as [t |] eqn:Em; simpl;
    [|apply extends_refl, HL].
  destruct (Hk (set_fs t w)) as (evs & E & HP).
  - simpl. eapply mkdir_p_lookup; eauto.
  - exists evs. split; [exact E | exact HP].
Qed.

(** ** The install path when the build starts *)

Lemma unlocker_not_ninja home : home +:+ "/unlock-keychain" <> "ninja".
Proof.
  intros H. apply (f_equal String.length) in H. rewrite length_append in H.
  simpl in H. lia.
Qed.

Ltac not_build_call :=
  repeat constructor; unfold clean_at_build, is_build_call, make_cmd, parallel;
  try (destruct (is_win _)); simpl; intros Heq;
  solve [ discriminate Heq
        | injection Heq as Heq; exfalso; eapply unlocker_not_ninja; exact Heq ].

Lemma build_clean_at_build h X a : emits (clean_at_build h a) (build h X a).
Proof.
  pose proof (local_Forall (clean_at_build h a)) as HL.
  unfold emits, build.
  stage HL ltac:(repeat produces_step HL; repeat constructor).
  stage HL ltac:(repeat produces_step HL).
  stage HL ltac:(repeat produces_step HL; not_build_call).
  apply produces_after_mkdir_parents; [exact HL|]. intros w Hw.
  unfold subprocess_call. rewrite bind_assoc.
  apply extends_popen_bind; [exact HL | |].
  - intros r. repeat constructor. intros _. exact Hw.
  - intros x. repeat produces_step HL; repeat constructor.
Qed.

Lemma main_clean_at_build h X fuel a : emits (clean_at_build h a) (main h X fuel a).
Proof.
  pose proof (local_Forall (clean_at_build h a)) as HL.
  unfold emits, main.
  do 11 stage HL ltac:(repeat produces_step HL;
                        try solve [repeat constructor]; not_build_call).
  stage HL ltac:(apply build_clean_at_build).
  repeat produces_step HL.
  all: try (apply produces_try_timeServers; [exact HL | intros ..]).
  all: try solve [repeat constructor].
  all: not_build_call.
Qed.

(** C7.  In every run, whenever the build tool ([ninja] with the parallel
    flags of the platform) is started, the install path is an empty
    directory: it was removed if it existed and created again just before,
    whether or not the cleanup stage ran. *)
Theorem install_path_clean_before_build h X fuel a t env lines c before result :
  In (Call c before result) (trace (snd (run h X fuel a t env lines))) ->
  is_build_call h a c ->
  FS.lookup (install_path h) before = Some (Dir []).
Proof.
  intros Hin Hc.
  destruct (main_clean_at_build h X fuel a (boot t env lines)) as (evs & E & HQ).
  unfold run in Hin. rewrite E in Hin. simpl in Hin.
  rewrite List.Forall_forall in HQ. apply (HQ _ Hin), Hc.
Qed.

Lemma install_path_clean_before_build_witness :
  FS.lookup (install_path Demo.linux)
    (Demo.before_of (Demo.event_at 22 (trace (snd Demo.rebuild))))
  = Some (Dir []).
Proof.
  apply (install_path_clean_before_build Demo.linux
           (Demo.externals_of Demo.linux Demo.plain) 8 Demo.no_clean Demo.built
           ∅ ["y"; "y"]
           (Demo.call_of (Demo.event_at 22 (trace (snd Demo.rebuild)))) _
           (Demo.result_of (Demo.event_at 22 (trace (snd Demo.rebuild))))).
  - apply (nth_error_In _ 22). vm_compute. reflexivity.
  - vm_compute. reflexivity.
Defined.

(** ** Runs without prompts *)

Lemma main_not_input h X fuel a :
  prompt a = false -> emits not_input (main h X fuel a).
Proof.
  intros Hp. pose proof (local_Forall not_input) as HL.
  unfold emits. repeat produces_step HL.
  all: try (apply produces_try_timeServers; [exact HL | intros ..]).
  all: try solve [repeat constructor].
  all: congruence.
Qed.

(** C5.  With [--no-prompt] no run ever calls [input]: neither the first
    confirmation nor the overwrite check reads standard input, on any path
    through the script. *)
Theorem no_prompt_never_reads_stdin h X fuel a t env lines text answer :
  prompt a = false ->
  ~ In (Input text answer) (trace (snd (run h X fuel a t env lines))).
Proof.
  intros Hp Hin.
  destruct (main_not_input h X fuel a Hp (boot t env lines)) as (evs & E & HQ).
  unfold run in Hin. rewrite E in Hin. simpl in Hin.
  rewrite List.Forall_forall in HQ. exact (HQ _ Hin).
Qed.

Lemma no_prompt_never_reads_stdin_witness :
  ~ In (Input overwrite_prompt (Some "y"))
      (trace (snd (run Demo.linux (Demo.externals_of Demo.linux Demo.plain) 8
                     Demo.unattended Demo.built ∅ ["y"; "y"]))).
Proof.
  apply (no_prompt_never_reads_stdin Demo.linux
           (Demo.externals_of Demo.linux Demo.plain) 8 Demo.unattended).
  reflexivity.
Defined.

(** ** The [--patch] flag *)

(** C10.  Two invocations that differ only in what was given to [--patch]
    run identically: same outcome, same trace (so the same patches listed
    and the same patches applied), same final file system.  The parsed
    value is never read. *)
Theorem patch_flag_never_read h X fuel a1 a2 t env lines :
  same_but_patch a1 a2 ->
  run h X fuel a1 t env lines = run h X fuel a2 t env lines.
Proof.
  destruct a1, a2. unfold same_but_patch. simpl.
  intros (-> & -> & -> & -> & -> & -> & ->). reflexivity.
Qed.

Lemma patch_flag_never_read_witness :
  run Demo.linux (Demo.externals_of Demo.linux Demo.plain) 8
    (Demo.with_patch (Some ["b.patch"]) Demo.flags) Demo.checkout ∅ ["y"]
  = run Demo.linux (Demo.externals_of Demo.linux Demo.plain) 8
      (Demo.with_patch None Demo.flags) Demo.checkout ∅ ["y"].
Proof.
  apply patch_flag_never_read. repeat split.
Defined.

(** ** Declining the overwrite *)

Lemma still_keeps {A} p (m : M A) : still m -> keeps p m.
Proof. intros H w. rewrite H. reflexivity. Qed.

Lemma keeps_ret {A} p (a : A) : keeps p (ret a).
Proof. intros w. reflexivity. Qed.

Lemma keeps_bind {A B} p (m : M A) (k : A -> M B) :
  keeps p m -> (forall a, keeps p (k a)) -> keeps p (bind m k).
Proof.
  intros Hm Hk w. unfold bind. specialize (Hm w).
  destruct (m w) as [[a | c | e |] w1]; simpl in *; try exact Hm.
  rewrite Hk. exact Hm.
Qed.

Lemma keeps_when p b (m : M unit) : keeps p m -> keeps p (when b m).
Proof. intros H. destruct b; [exact H | apply keeps_ret]. Qed.

Lemma keeps_for_each {A} p (xs : list A) (body : A -> M unit) :
  (forall x, keeps p (body x)) -> keeps p (for_each xs body).
Proof.
  intros Hb. induction xs as [| x xs IH]; simpl; [apply keeps_ret|].
  apply keeps_bind; auto.
Qed.

Lemma still_print text : still (print text).
Proof. intros w. reflexivity. Qed.

Lemma still_input text : still (input text).
Proof. intros w. unfold input. destruct (stdin w); reflexivity. Qed.

Lemma still_sys_exit {A} code : still (@sys_exit A code).
Proof. intros w. reflexivity. Qed.

Lemma still_raise {A} e : still (@raise A e).
Proof. intros w. reflexivity. Qed.

Lemma still_path_exists p : still (path_exists p).
Proof. intros w. reflexivity. Qed.

Lemma still_path_iterdir p : still (path_iterdir p).
Proof.
  intros w. unfold path_iterdir.
  destruct (FS.lookup p (fs w)) as [[x d | es] |]; reflexivity.
Qed.

Lemma still_path_glob_star p : still (path_glob_star p).
Proof.
  intros w. unfold path_glob_star.
  destruct (FS.lookup p (fs w)) as [[x d | es] |]; reflexivity.
Qed.

Lemma still_decode X b : still (decode X b).
Proof. intros w. unfold decode. destruct (bytes_decode X b); reflexivity. Qed.

Lemma still_environ_setitem h k v : still (environ_setitem h k v).
Proof.
  intros w. unfold environ_setitem. destruct (String.eqb k ""); reflexivity.
Qed.

Lemma keeps_path_mkdir_parents p q : diverge q p -> keeps p (path_mkdir_parents q).
Proof.
  intros Hd w. unfold path_mkdir_parents.
  destruct (FS.lookup q (fs w)); [reflexivity|].
  destruct (FS.mkdir_p q (fs w)) eqn:E; [|reflexivity].
  simpl. eapply mkdir_p_frame; eauto.
Qed.

Lemma keeps_path_unlink p q : diverge q p -> keeps p (path_unlink q).
Proof.
  intros Hd w. unfold path_unlink.
  destruct (FS.lookup q (fs w)) as [[x d | es] |]; try reflexivity.
  destruct (FS.remove q (fs w)) eqn:E; [|reflexivity].
  simpl. eapply remove_frame; eauto.
Qed.

Lemma keeps_rmtree p q : diverge q p -> keeps p (rmtree q).
Proof.
  intros Hd w. unfold rmtree.
  destruct (FS.lookup q (fs w)) as [[x d | es] |]; try reflexivity.
  destruct (FS.remove q (fs w)) eqn:E; [|reflexivity].
  simpl. eapply remove_frame; eauto.
Qed.

Lemma keeps_popen X p c :
  (forall w, FS.lookup p (fs_after (os_exec X c w)) = FS.lookup p (fs w)) ->
  keeps p (popen X c).
Proof.
  intros H w. unfold popen.
  destruct (via_shell c || launched (os_exec X c w)); simpl; [apply H | reflexivity].
Qed.

(** the outputs, the build directory and the cache file are beside the
    install path, not above or below it *)
Ltac beside_install :=
  cbv [artifact_path build_path source_path yasm_dir install_path];
  rewrite <- ?app_assoc; apply diverge_app; simpl; exact I.

Ltac keeps_step :=
  lazymatch goal with
  | |- keeps _ (bind _ _) => apply keeps_bind; [| intros ?]
  | |- keeps _ (ret _) => apply keeps_ret
  | |- keeps _ (when _ _) => apply keeps_when
  | |- keeps _ (for_each _ _) => apply keeps_for_each; intros ?
  | |- keeps _ (popen _ _) => apply keeps_popen; intros ?
  | |- keeps _ (path_mkdir_parents _) =>
      apply keeps_path_mkdir_parents; beside_install
  | |- keeps _ (path_unlink _) => apply keeps_path_unlink; beside_install
  | |- keeps _ (rmtree _) => apply keeps_rmtree; beside_install
  | |- keeps _ (if ?b then _ else _) => destruct b eqn:?
  | |- keeps _ (match ?x with _ => _ end) => destruct x eqn:?
  | |- keeps _ _ =>
      first
        [ apply still_keeps;
          first
            [ apply still_print | apply still_input | apply still_sys_exit
            | apply still_raise | apply still_path_exists
            | apply still_path_iterdir | apply still_path_glob_star
            | apply still_decode | apply still_environ_setitem ]
        | progress
            unfold check_output, subprocess_call_shell, remove_dir, import_line,
              import_vcvars, find_sysroot, print_plan, discover_patches,
              announce_patches, confirm, prepare_artifacts, clean_stage ]
  end.

Ltac spared H := apply H; unfold early_call; auto.

Ltac not_overwrite :=
  repeat constructor; simpl;
  try match goal with |- match ?o with _ => _ end => destruct o end;
  try exact I; try discriminate.

Lemma safe_bind {A} h (m : M A) (k : A -> M unit) :
  keeps (install_path h) m -> emits not_overwrite_answer m ->
  (forall a, safe h (k a)) -> safe h (bind m k).
Proof.
  intros Hk He Hs w. unfold bind.
  destruct (He w) as (e1 & E1 & Q1). specialize (Hk w).
  assert (Hno : ~ declines e1).
  { intros (answer & _ & Hin). rewrite List.Forall_forall in Q1.
    specialize (Q1 _ Hin). simpl in Q1. congruence. }
  destruct (m w) as [[a | c | e |] w1]; simpl in *;
    try (exists e1; split; [exact E1 | intros Hd; contradiction]).
  destruct (Hs a w1) as (e2 & E2 & H2).
  exists (e1 ++ e2). split; [rewrite E2, E1, app_assoc; reflexivity|].
  intros (answer & Hn & Hin). apply in_app_or in Hin.
  destruct Hin as [Hin | Hin]; [exfalso; apply Hno; exists answer; auto|].
  destruct H2 as [Hx Hl]; [exists answer; auto|].
  split; [exact Hx | rewrite Hl; exact Hk].
Qed.

Lemma safe_overwrite_check h a (rest : M unit) :
  emits not_overwrite_answer rest ->
  safe h (bind (overwrite_check h a) (fun _ => rest)).
Proof.
  intros Hr w.
  assert (Hrest : forall w1, trace w1 = trace w ->
            exists evs, trace (snd (rest w1)) = trace w ++ evs /\ ~ declines evs).
  { intros w1 E. destruct (Hr w1) as (evs & E1 & Q). exists evs.
    split; [rewrite E1, E; reflexivity|].
    intros (answer & _ & Hin). rewrite List.Forall_forall in Q.
    specialize (Q _ Hin). simpl in Q. congruence. }
  unfold overwrite_check, bind, path_exists. simpl.
  destruct (FS.exists_ (install_path h) (fs w)); simpl.
  2: { destruct (Hrest w eq_refl) as (evs & E & Hn).
       exists evs. split; [exact E | intros Hd; contradiction]. }
  destruct (prompt a); simpl.
  2: { destruct (Hrest w eq_refl) as (evs & E & Hn).
       exists evs. split; [exact E | intros Hd; contradiction]. }
  unfold input. destruct (stdin w) as [| l ls]; simpl.
  - eexists. split; [reflexivity|].
    intros (answer & _ & [Hin | []]). discriminate Hin.
  - destruct (String.eqb_spec l "y") as [-> | Hl]; simpl.
    + destruct (Hr (log (Input overwrite_prompt (Some "y")) (set_stdin ls w)))
        as (evs & E & Q).
      exists (Input overwrite_prompt (Some "y") :: evs).
      split; [rewrite E; simpl; rewrite <- app_assoc; reflexivity|].
      intros (answer & Hn & [Hin | Hin]); [congruence|].
      rewrite List.Forall_forall in Q. specialize (Q _ Hin). simpl in Q.
      congruence.
    + eexists. split; [rewrite <- app_assoc; reflexivity|].
      intros _. split; reflexivity.
Qed.

Lemma main_safe h X fuel a : spares_install h X -> safe h (main h X fuel a).
Proof.
  intros HX. pose proof (local_Forall not_overwrite_answer) as HL.
  unfold main.
  do 8 (apply safe_bind;
        [ repeat keeps_step; spared HX
        | unfold emits; repeat produces_step HL; not_overwrite
        | intros ? ]).
  apply safe_overwrite_check.
  unfold emits. repeat produces_step HL.
  all: try (apply produces_try_timeServers; [exact HL | intros ..]).
  all: not_overwrite.
Qed.

(** C6.  When the operator is asked whether to overwrite the existing
    install (so the install path exists and prompting is on) and answers
    anything but [y], the run ends in [sys.exit(1)] and what is at the
    install path is what was there when the run started, provided the
    programs run before the question (the compiler-environment script,
    [xcode-select], the shell's [rmdir] of the build directory) leave the
    install path alone. *)
Theorem declined_overwrite_keeps_install h X fuel a t env lines answer :
  spares_install h X ->
  In (Input overwrite_prompt (Some answer))
     (trace (snd (run h X fuel a t env lines))) ->
  answer <> "y" ->
  fst (run h X fuel a t env lines) = Exit 1%Z /\
  FS.lookup (install_path h) (fs (snd (run h X fuel a t env lines)))
  = FS.lookup (install_path h) t.
Proof.
  intros HX Hin Hn. unfold run in *.
  destruct (main_safe h X fuel a HX (boot t env lines)) as (evs & E & H).
  rewrite E in Hin. simpl in Hin. apply H. exists answer. auto.
Qed.

Lemma demo_spares_install h b : spares_install h (Demo.externals_of h b).
Proof. intros c w [-> | [-> | ->]]; reflexivity. Qed.

Lemma declined_overwrite_keeps_install_witness :
  fst Demo.declined = Exit 1%Z /\
  FS.lookup (install_path Demo.linux) (fs (snd Demo.declined))
  = FS.lookup (install_path Demo.linux) Demo.built.
Proof.
  apply (declined_overwrite_keeps_install Demo.linux
           (Demo.externals_of Demo.linux Demo.plain) 8 Demo.flags Demo.built
           ∅ ["y"; "n"] "n").
  - apply demo_spares_install.
  - apply (nth_error_In _ 10). vm_compute. reflexivity.
  - discriminate.
Defined.

(** ** The order of the patches *)


Lemma string_compare_refl s : String.compare s s = Eq.
Proof.
  induction s as [| a s IH]; simpl; [reflexivity|].
  unfold Ascii.compare. rewrite N.compare_refl. exact IH.
Qed.















Lemma inb_In n l : FS.inb n l = true <-> In n l.
Proof.
  induction l as [| m l IH]; simpl; [split; [discriminate | tauto]|].
  destruct (String.eqb_spec m n) as [-> | Hne]; [tauto|].
  rewrite IH. split; [tauto | intros [H | H]; [contradiction | exact H]].
Qed.

Lemma listing_names seen es :
  List.NoDup (map fst (FS.listing seen es)) /\
  forall n, In n (map fst (FS.listing seen es)) -> ~ In n seen.
Proof.
  revert seen. induction es as [| [n t] es IH]; intros seen; simpl.
  - split; [constructor | tauto].
  - destruct (FS.inb n seen) eqn:E; [apply IH|].
    destruct (IH (n :: seen)) as [Hn Hs]. simpl. split.
    + constructor; [|exact Hn]. intros Hin. apply (Hs n Hin). left. reflexivity.
    + intros m [<- | Hin].
      * intros Hin. apply inb_In in Hin. congruence.
      * intros Hm. apply (Hs m Hin). right. exact Hm.
Qed.

(** a directory lists every name once *)
Lemma names_of_NoDup es : List.NoDup (FS.names_of es).
Proof. apply listing_names. Qed.

(** ** The patches a run lists and applies *)


























(** ** Signing on Windows *)









Lemma split_at {A} (l pre post : list A) x :
  l = pre ++ x :: post ->
  exists n, nth_error l n = Some x /\ pre = firstn n l /\ post = skipn (S n) l.
Proof.
  intros ->. exists (length pre).
  induction pre as [| y pre IH]; simpl; [auto|].
  destruct IH as (H1 & H2 & H3). repeat split; auto. f_equal. exact H2.
Qed.

















(** ** Signing on macOS *)



Lemma mac_sign_shape h X path deep force w :
  exists evs,
    trace (snd (mac_sign h X path deep force w)) = trace w ++ evs /\
    unlock_then_sign evs (fst (mac_sign h X path deep force w)).
Proof.
  unfold mac_sign, keychain_unlocker, subprocess_call.
  unfold bind, environ_getitem, os_path_exists. cbv beta.
  destruct (environ w !! environ_key h "HOME") as [home |]; simpl;
    [|exists []; rewrite app_nil_r; split; [reflexivity | constructor]].
  destruct (FS.resolve (cwd h) (home +:+ "/unlock-keychain") (fs w)); simpl;
    [|exists []; rewrite app_nil_r; split; [reflexivity | constructor]].
  unfold bind, popen, ret. simpl.
  destruct (launched (os_exec X _ w)); simpl;
    [|eexists; split; [reflexivity | constructor; eexists; reflexivity]].
  destruct (Z.eqb_spec (returncode (os_exec X
              {| via_shell := false; argv := [home +:+ "/unlock-keychain"];
                 workdir := None |} w)) 0) as [E | E]; simpl;
    [|eexists; split; [reflexivity
                      | constructor; [eexists; reflexivity | exact E]]].
  rewrite E.
  destruct (Py.endswith path ".dmg"); unfold gets; simpl;
    (destruct (launched (os_exec X _ _)); simpl;
     eexists; (split; [rewrite <- app_assoc; reflexivity|]); simpl;
     first [eapply us_signed | eapply us_no_codesign]).
  all: try solve [eexists; reflexivity].
  all: try solve [destruct deep, force; eexists; reflexivity].
Qed.




(** *** Runs that are cut short *)

Lemma final_of_emits {A} bad s rest (ok : event -> Prop) (m : M A) :
  (forall e, ok e -> ~ bad e) -> emits ok m -> final bad s rest m.
Proof.
  intros Hok Hm w. destruct (Hm w) as (evs & E & Q). exists evs.
  split; [exact E|]. intros pre e post -> Hb. exfalso.
  rewrite List.Forall_forall in Q. apply (Hok e); [|exact Hb].
  apply Q, in_or_app. right. left. reflexivity.
Qed.

Lemma ends_not_ok {A} s (x : A) : ~ ends s (Ok x).
Proof. destruct s; exact (fun H => H). Qed.

Lemma final_bind {A B} bad s rest (m : M A) (k : A -> M B) :
  final bad s rest m -> (forall x, final bad s rest (k x)) -> final bad s rest (bind m k).
Proof.
  intros Hm Hk w. unfold bind. destruct (Hm w) as (e1 & E1 & F1).
  destruct (m w) as [[x | c | e |] w1]; simpl in *;
    try (exists e1; split; [exact E1|]; intros pre e0 post Heq Hb;
         destruct (F1 pre e0 post Heq Hb) as [He Hp]; split; [|exact Hp];
         destruct s; exact He).
  destruct (Hk x w1) as (e2 & E2 & F2). exists (e1 ++ e2).
  split; [rewrite E2, E1, app_assoc; reflexivity|].
  intros pre e0 post Heq Hb.
  apply List.app_eq_app in Heq. destruct Heq as (l & [[E3 E4] | [E3 E4]]).
  - destruct l as [| y l].
    + exact (F2 [] e0 post (eq_sym E4) Hb).
    + injection E4 as <- ->. exfalso.
      exact (ends_not_ok s x (proj1 (F1 pre e0 l E3 Hb))).
  - exact (F2 l e0 post E4 Hb).
Qed.

Lemma final_ret {A} bad s rest (a : A) : final bad s rest (ret a).
Proof.
  intros w. exists []. rewrite app_nil_r. split; [reflexivity|].
  intros pre e post H. destruct pre; discriminate H.
Qed.

Lemma final_for_each {A} bad s rest (xs : list A) (body : A -> M unit) :
  (forall x, final bad s rest (body x)) -> final bad s rest (for_each xs body).
Proof.
  intros Hb. induction xs as [| x xs IH]; simpl; [apply final_ret|].
  apply final_bind; auto.
Qed.

Lemma final_os_walk bad s rest fuel pending body :
  (forall top dirs files, final bad s rest (body top dirs files)) ->
  final bad s rest (os_walk fuel pending body).
Proof.
  intros Hb. revert pending.
  induction fuel as [| fuel IH]; intros [| top more]; simpl;
    try apply final_ret.
  - intros w. exists []. rewrite app_nil_r. split; [reflexivity|].
    intros pre e post H. destruct pre; discriminate H.
  - intros w. destruct (FS.lookup top (fs w)) as [[x d | es] |]; try apply IH.
    apply final_bind; auto.
Qed.

(** *** One file of the walk *)

Lemma bind_run {A B} (m : M A) (k : A -> M B) w :
  bind m k w
  = match m w with
    | (Ok a, w') => k a w'
    | (Exit c, w') => (Exit c, w')
    | (Raise e, w') => (Raise e, w')
    | (OutOfFuel, w') => (OutOfFuel, w')
    end.
Proof. unfold bind. destruct (m w) as [[] ?]; reflexivity. Qed.

(** lines 243-254 by cases on what the file is *)
Lemma sign_darwin_file_eq h X top file w :
  sign_darwin_file h X top file w
  = match FS.lookup (top ++ [file]) (fs w) with
    | Some (File true data) =>
        if String.eqb (String.substring 0 4 data) macho_magic
        then (signed <- mac_sign h X (os_path_join h (str_path h top) file)
                          false true ;;
              if negb signed
              then print ("Failed to sign "
                          +:+ os_path_join h (str_path h top) file) ;;
                   sys_exit 1%Z
              else ret tt) w
        else (Ok tt, w)
    | Some (File false _) => (Ok tt, w)
    | Some (Dir _) => (Raise IsADirectoryError, w)
    | None => (Ok tt, w)
    end.
Proof.
  unfold sign_darwin_file.
  unfold bind at 1. unfold os_access_x.
  destruct (FS.lookup (top ++ [file]) (fs w)) as [[[] data | es] |] eqn:El;
    simpl; try reflexivity;
    unfold bind at 1; unfold read_head, read_all; unfold bind at 1;
    rewrite El; simpl; try reflexivity.
  destruct (String.eqb (String.substring 0 4 data) macho_magic); reflexivity.
Qed.

(** what [sign_darwin_file] does: nothing that shows in the trace, or one
    call of [mac_sign] and what follows from its result *)
Lemma sign_darwin_file_shape h X top file w :
  let r := sign_darwin_file h X top file w in
  trace (snd r) = trace w \/
  exists evs o,
    unlock_then_sign evs o /\
    match o with
    | Ok true => trace (snd r) = trace w ++ evs /\ fst r = Ok tt
    | Ok false =>
        trace (snd r)
        = trace w ++ evs
          ++ [Print ("Failed to sign " +:+ os_path_join h (str_path h top) file)] /\
        fst r = Exit 1%Z
    | Raise e => trace (snd r) = trace w ++ evs /\ fst r = Raise e
    | _ => False
    end.
Proof.
  cbv zeta. rewrite sign_darwin_file_eq.
  destruct (FS.lookup (top ++ [file]) (fs w)) as [[[] data | es] |];
    try (left; reflexivity).
  destruct (String.eqb (String.substring 0 4 data) macho_magic);
    [|left; reflexivity].
  right. rewrite bind_run.
  destruct (mac_sign_shape h X (os_path_join h (str_path h top) file) false true w)
    as (evs & E & S).
  destruct (mac_sign h X _ false true w) as [o w1]. simpl in E, S.
  exists evs, o. split; [exact S|].
  inversion S as [| | c b Hu | c b rc Hu Hrc | c b c' b' rc Hu Hc | c b c' b' Hu Hc];
    subst; simpl; auto;
    try (rewrite E, <- app_assoc; auto).
  destruct (Z.eqb rc 0); simpl; auto.
  rewrite E, <- app_assoc; auto.
Qed.


(** the position of an event in a list of one, two or three *)
Ltac event_position Heq :=
  let n := fresh "n" in
  let Hnth := fresh "Hnth" in
  apply split_at in Heq; destruct Heq as (n & Hnth & -> & ->);
  destruct n as [| [| [| n]]]; simpl in Hnth; try discriminate Hnth;
  try (destruct n; discriminate Hnth);
  injection Hnth as <-.



(** *** The whole run *)











(** ** Which files are signed on macOS *)

(** C3 (a defect of the code).  The walk compares the first four bytes of
    an executable file with [ca fe ba be] only, the mark of a universal
    binary.  An executable Mach-O file for one architecture, which starts
    with one of [thin_macho_magics], is passed over: [sign_darwin_file]
    returns without a trace.  In the build whose only binary is such a
    file, with the unlock helper in place and working, the run ends well,
    the signing tool is never started and the binary is archived as it
    is, whereas a universal binary is signed.  The rest of the claim
    holds: a file that is not executable, or whose first four bytes are
    not [ca fe ba be], is passed over. *)
Theorem thin_macho_is_passed_over :
  (forall h X top file w magic rest,
     In magic thin_macho_magics ->
     FS.lookup (top ++ [file]) (fs w) = Some (File true (magic +:+ rest)) ->
     sign_darwin_file h X top file w = (Ok tt, w)) /\
  In Demo.thin_magic thin_macho_magics /\
  fst Demo.mac_thin_signing = Ok tt /\
  existsb (fun e => Demo.mentions "codesign" (Demo.call_of e))
    (trace (snd Demo.mac_thin_signing)) = false /\
  Demo.entries Demo.mac_thin_signing
  = [("yasm/1.3.0/bin/yasm", ZIP_DEFLATED, Z.shiftl mode_rwxr_xr_x 16)] /\
  existsb (fun e => Demo.mentions "codesign" (Demo.call_of e))
    (trace (snd Demo.mac_signed)) = true /\
  (forall h X top file w x data,
     FS.lookup (top ++ [file]) (fs w) = Some (File x data) ->
     x && String.eqb (String.substring 0 4 data) macho_magic = false ->
     sign_darwin_file h X top file w = (Ok tt, w)).
Proof.
  split; [|split; [|split; [|split; [|split; [|split]]]]].
  - intros h X top file w magic rest Hm El.
    rewrite sign_darwin_file_eq, El.
    destruct Hm as [<- | [<- | [<- | [<- | []]]]]; destruct rest; reflexivity.
  - right. right. right. left. reflexivity.
  - vm_compute. reflexivity.
  - vm_compute. reflexivity.
  - vm_compute. reflexivity.
  - vm_compute. reflexivity.
  - intros h X top file w x data El Hq.
    rewrite sign_darwin_file_eq, El.
    destruct x; [|reflexivity]. simpl in Hq. rewrite Hq. reflexivity.
Qed.

(** ** The archive entries *)

Ltac zip_entry :=
  constructor; [|constructor]; simpl;
  split; [reflexivity|]; split; [reflexivity|];
  match goal with
  | |- context [if ?x then _ else _] => destruct x; auto
  end.

Lemma main_zip_entries h X fuel a : emits (zip_entry_ok h) (main h X fuel a).
Proof.
  pose proof (local_Forall (zip_entry_ok h)) as HL.
  unfold emits. repeat produces_step HL.
  all: try (apply produces_try_timeServers; [exact HL | intros ..]).
  all: try solve [repeat constructor].
  all: zip_entry.
Qed.

(** what packaging does with one file: it prints a line and writes one
    entry with the bytes of the file *)
Lemma archive_file_entry h X top relpath file w x data :
  FS.lookup (top ++ [file]) (fs w) = Some (File x data) ->
  exists w',
    archive_file h X top relpath file w = (Ok tt, w') /\
    trace w'
    = trace w
      ++ [Print ("Adding " +:+ relpath +:+ "/" +:+ file +:+ "...");
          ZipWrite (str_path h (archive_path h))
            {| filename :=
                 filename
                   (ZipInfo h
                      (os_path_join h
                         (os_path_join h (os_path_join h "yasm" yasm_version)
                            relpath) file));
               compress_type := ZIP_DEFLATED;
               external_attr := if x then Z.shiftl mode_rwxr_xr_x 16
                                else Z.shiftl mode_rw_r__r__ 16 |}
            data].
Proof.
  intros El. unfold archive_file, bind, print, os_access_x, read_all, zip_writestr.
  simpl. rewrite El. simpl. rewrite El. simpl.
  eexists. split; [reflexivity|]. simpl. rewrite <- app_assoc. reflexivity.
Qed.

(** C2 (a defect of the code).  The path of a directory relative to the
    install path is computed by deleting the install path from its name
    and then stripping slashes and backslashes from both ends.  Off
    Windows a backslash is a character of a file name like any other: the
    file [README] of the directory [\doc] is archived as
    [yasm/1.3.0/doc/README], not as [yasm/1.3.0/\doc/README].  The rest is
    as the claim has it.  In every run, each entry goes to
    [yasm-<version>.zip] in the artifact directory, is deflated and has
    the attributes [0o755 << 16] or [0o644 << 16]; for a file of a
    directory of the walk, one entry is written, with the bytes of the
    file, [0o755] when [os.access(..., X_OK)] holds and [0o644] otherwise,
    under the name made of [yasm], the version, the relative path as
    computed, and the name of the file. *)
Theorem backslash_directory_is_renamed :
  Py.strip "\/"
    (Py.replace (str_path Demo.linux (install_path Demo.linux)) ""
       (str_path Demo.linux (install_path Demo.linux ++ ["\doc"])))
  = "doc" /\
  fst Demo.backslash_build = Ok tt /\
  Demo.entries Demo.backslash_build
  = [("yasm/1.3.0/bin/yasm", ZIP_DEFLATED, Z.shiftl mode_rwxr_xr_x 16);
     ("yasm/1.3.0/doc/README", ZIP_DEFLATED, Z.shiftl mode_rw_r__r__ 16)] /\
  (forall h X fuel a t env lines,
     Forall (zip_entry_ok h) (trace (snd (run h X fuel a t env lines)))) /\
  (forall h X top relpath file w x data,
     FS.lookup (top ++ [file]) (fs w) = Some (File x data) ->
     exists w',
       archive_file h X top relpath file w = (Ok tt, w') /\
       trace w'
       = trace w
         ++ [Print ("Adding " +:+ relpath +:+ "/" +:+ file +:+ "...");
             ZipWrite (str_path h (archive_path h))
               {| filename :=
                    filename
                      (ZipInfo h
                         (os_path_join h
                            (os_path_join h (os_path_join h "yasm" yasm_version)
                               relpath) file));
                  compress_type := ZIP_DEFLATED;
                  external_attr := if x then Z.shiftl mode_rwxr_xr_x 16
                                   else Z.shiftl mode_rw_r__r__ 16 |}
               data]).
Proof.
  split; [vm_compute; reflexivity|].
  split; [vm_compute; reflexivity|].
  split; [vm_compute; reflexivity|].
  split.
  - intros h X fuel a t env lines.
    destruct (main_zip_entries h X fuel a (boot t env lines)) as (evs & E & HQ).
    unfold run. rewrite E. exact HQ.
  - intros h X top relpath file w x data. apply archive_file_entry.
Qed.

(** ** Importing the compiler environment *)











(** * Further properties of the script

    ** The programs a run starts *)

(** like [produces_step], but what guards a piece of the script is kept
    as a hypothesis *)
Ltac guarded_step HL :=
  lazymatch goal with
  | |- produces _ (when ?b _) => unfold when at 1; destruct b eqn:?
  | |- produces _ (try_timeServers _ _ _ _) =>
      unfold timeServers; cbn [try_timeServers]
  | |- _ => produces_step HL
  end.

Lemma negb_true_false b : negb b = true -> b = false.
Proof. destruct b; [discriminate | reflexivity]. Qed.

Ltac known :=
  repeat match goal with
         | H : negb _ = true |- _ => apply negb_true_false in H
         end;
  first
    [ solve [repeat constructor]
    | apply List.Forall_cons; [|apply List.Forall_nil]; simpl;
      solve [ econstructor; solve [eauto | simpl; eauto] ] ].

Lemma main_known_calls h X fuel a : emits (known_event h a) (main h X fuel a).
Proof.
  pose proof (local_Forall (known_event h a)) as HL.
  unfold emits. repeat guarded_step HL.
  all: known.
Qed.

(** X1.  Every program a run starts is one of: the compiler-environment
    command (Windows), [xcode-select -p] (macOS), the shell's [rmdir] of
    the build, source or install directory (win32; the build directory
    only when cleaning, the source directory only when cloning or
    cleaning), [git clone], [git checkout] and [git apply] (never with
    [--no-clone]), [cmake] with the arguments of [cmake_argv], the build
    tool, its [install] target (whatever [--no-install] says), the unlock
    helper and [codesign -f --options runtime --timestamp -s "Developer
    ID"] (macOS with [--sign]; never with [--deep]), and [signtool] with
    one of the servers of the list (Windows with [--sign]). *)
Theorem calls_of_a_run_are_known h X fuel a t env lines c before result :
  In (Call c before result) (trace (snd (run h X fuel a t env lines))) ->
  known_call h a c.
Proof.
  intros Hin.
  destruct (main_known_calls h X fuel a (boot t env lines)) as (evs & E & HQ).
  unfold run in Hin. rewrite E in Hin. simpl in Hin.
  rewrite List.Forall_forall in HQ. exact (HQ _ Hin).
Qed.

Lemma calls_of_a_run_are_known_witness :
  known_call Demo.darwin Demo.mac_signing
    (Demo.call_of (Demo.event_at 19 (trace (snd Demo.mac_signed)))).
Proof.
  apply (calls_of_a_run_are_known Demo.darwin
           (Demo.externals_of Demo.darwin Demo.universal_build) 8
           Demo.mac_signing (Demo.mac_checkout true) Demo.mac_env []
           _ (Demo.before_of (Demo.event_at 19 (trace (snd Demo.mac_signed))))
           (Demo.result_of (Demo.event_at 19 (trace (snd Demo.mac_signed))))).
  apply (nth_error_In _ 19). vm_compute. reflexivity.
Defined.

Lemma is_win32_is_win h : is_win32 h = true -> is_win h = true.
Proof.
  unfold is_win32, is_win. intros H. apply String.eqb_eq in H. rewrite H.
  reflexivity.
Qed.

Lemma unlocker_not_git home : home +:+ "/unlock-keychain" <> "git".
Proof.
  intros H. apply (f_equal String.length) in H. rewrite length_append in H.
  simpl in H. lia.
Qed.

(** X2.  What the flags and the platform rule out, for every program a run
    starts: with [--no-clone] it is not [git]; without [--sign] it is
    neither the unlock helper, nor [codesign], nor [signtool]; off Windows
    it is not started through the shell. *)
Theorem flags_rule_out_programs h X fuel a t env lines c before result :
  In (Call c before result) (trace (snd (run h X fuel a t env lines))) ->
  (no_clone a = true -> hd "" (argv c) <> "git") /\
  (sign a = false ->
   ~ is_unlock c /\ ~ is_codesign c /\ forall server path, ~ attempt_of server path c) /\
  (is_win h = false -> via_shell c = false).
Proof.
  intros Hin.
  destruct (main_known_calls h X fuel a (boot t env lines)) as (evs & E & HQ).
  unfold run in Hin. rewrite E in Hin. simpl in Hin.
  rewrite List.Forall_forall in HQ. specialize (HQ _ Hin). simpl in HQ.
  split; [|split].
  - intros Hn.
    destruct HQ; try congruence; unfold parallel; try (destruct (is_win h));
      simpl; try discriminate.
    all: apply unlocker_not_git.
  - intros Hs.
    destruct HQ; try congruence;
      (split; [|split]); unfold rmdir_call, vcvars_call;
      try (intros [x Heq]; discriminate Heq);
      try (intros server path [x Heq]; discriminate Heq).
  - intros Hw.
    destruct HQ; try reflexivity; try congruence;
      match goal with
      | H : is_win32 h = true |- _ => apply is_win32_is_win in H; congruence
      end.
Qed.

Lemma flags_rule_out_programs_witness :
  hd "" (argv (Demo.call_of (Demo.event_at 11 (trace (snd Runs.reused))))) <> "git".
Proof.
  destruct (flags_rule_out_programs Demo.linux
              (Demo.externals_of Demo.linux Demo.plain) 8 Demo.reuse
              Demo.built ∅ []
              (Demo.call_of (Demo.event_at 11 (trace (snd Runs.reused))))
              (Demo.before_of (Demo.event_at 11 (trace (snd Runs.reused))))
              (Demo.result_of (Demo.event_at 11 (trace (snd Runs.reused)))))
    as (H1 & _).
  - apply (nth_error_In _ 11). vm_compute. reflexivity.
  - apply H1. reflexivity.
Defined.

(** ** Failing steps *)

Lemma final_quiet {A} bad s rest (m : M A) : quiet m -> final bad s rest m.
Proof.
  intros Hq w. exists []. rewrite app_nil_r. split; [apply Hq|].
  intros pre e post H. destruct pre; discriminate H.
Qed.

Lemma final_print bad s rest text :
  ~ bad (Print text) -> final bad s rest (print text).
Proof.
  intros Hb w. exists [Print text]. split; [reflexivity|].
  intros pre e post Heq He. exfalso.
  destruct pre as [| x pre]; [injection Heq as <- _; exact (Hb He)|].
  destruct pre; discriminate Heq.
Qed.

(** [subprocess.call(argv, cwd=dir)] and what follows it *)
Lemma subprocess_call_run {B} X argv dir (k : Z -> M B) w :
  bind (subprocess_call X argv dir) k w
  = let c := {| via_shell := false; argv := argv; workdir := dir |} in
    let r := os_exec X c w in
    if launched r
    then k (returncode r)
           (log (Call c (fs w) (Some (returncode r))) (set_fs (fs_after r) w))
    else (Raise FileNotFoundError, log (Call c (fs w) None) w).
Proof.
  unfold subprocess_call, bind, popen, ret. simpl.
  destruct (launched (os_exec X _ w)); reflexivity.
Qed.

(** a program is run and its status checked: when the status is not 0 the
    script prints and exits, when it is 0 it goes on *)
Lemma final_checked_call {B} X bad argv dir (k : Z -> M B) :
  (forall e, bad e -> exists c b rc, e = Call c b (Some rc) /\ rc <> 0%Z) ->
  (forall rc, rc <> 0%Z -> forall w,
     fst (k rc w) = Exit 1%Z /\
     exists evs, trace (snd (k rc w)) = trace w ++ evs /\ Forall is_print evs) ->
  final bad (Exits 1) is_print (k 0%Z) ->
  final bad (Exits 1) is_print (bind (subprocess_call X argv dir) k).
Proof.
  intros Hbad Hfail Hgo w. rewrite subprocess_call_run. cbv zeta.
  set (c := {| via_shell := false; argv := argv; workdir := dir |}).
  destruct (launched (os_exec X c w)).
  - set (w1 := log _ _).
    destruct (Z.eq_dec (returncode (os_exec X c w)) 0%Z) as [E | E].
    + rewrite E. destruct (Hgo w1) as (evs & Et & HF).
      exists (Call c (fs w) (Some (returncode (os_exec X c w))) :: evs).
      split; [rewrite Et; unfold w1; simpl; rewrite <- app_assoc; reflexivity|].
      intros pre e post Heq He.
      destruct pre as [| x pre].
      * injection Heq as <- _.
        destruct (Hbad _ He) as (c' & b' & rc' & Hc & Hrc).
        injection Hc as _ _ Hr. congruence.
      * injection Heq as _ Heq. exact (HF pre e post Heq He).
    + destruct (Hfail _ E w1) as (Ho & evs & Et & Hp).
      exists (Call c (fs w) (Some (returncode (os_exec X c w))) :: evs).
      split; [rewrite Et; unfold w1; simpl; rewrite <- app_assoc; reflexivity|].
      intros pre e post Heq He.
      destruct pre as [| x pre].
      * injection Heq as _ <-. rewrite Ho. split; [reflexivity | exact Hp].
      * injection Heq as _ Heq. exfalso.
        destruct (Hbad _ He) as (c' & b' & rc' & -> & _).
        rewrite List.Forall_forall in Hp.
        assert (Hin : In (Call c' b' (Some rc')) evs).
        { rewrite Heq. apply in_or_app. right. left. reflexivity. }
        exact (Hp _ Hin).
  - eexists. split; [reflexivity|].
    intros pre e post Heq He. exfalso.
    destruct (Hbad _ He) as (c' & b' & rc' & -> & _).
    destruct pre as [| x pre]; [discriminate Heq|].
    destruct pre; discriminate Heq.
Qed.

Lemma failed_step_is_failure e :
  failed_step e -> exists c b rc, e = Call c b (Some rc) /\ rc <> 0%Z.
Proof. intros (c & b & rc & H & Hrc & _). eauto. Qed.

Lemma print_not_failed text : ~ failed_step (Print text).
Proof. intros (c & b & rc & H & _). discriminate H. Qed.

Lemma unlock_not_checked c : is_unlock c -> ~ checked_call c.
Proof.
  intros (home & ->) (_ & prog & rest & Ha & Hin). injection Ha as <- _.
  simpl in Hin.
  assert (Hlen : 16 <= String.length (home +:+ "/unlock-keychain")).
  { rewrite length_append. simpl. lia. }
  destruct Hin as [H | [H | [H | [H | []]]]]; rewrite <- H in Hlen;
    simpl in Hlen; lia.
Qed.

(** the events of the pieces that check no status *)
Ltac not_failed_step :=
  try apply List.Forall_nil;
  try (apply List.Forall_cons; [|apply List.Forall_nil]);
  let Heq := fresh "Heq" in
  let Hsh := fresh "Hsh" in
  let Ha := fresh "Ha" in
  let Hin := fresh "Hin" in
  intros (? & ? & ? & Heq & _ & Hsh & ? & ? & Ha & Hin);
  first
    [ discriminate Heq
    | injection Heq as <- _ _; simpl in Hsh, Ha;
      first
        [ discriminate Hsh
        | injection Ha as <- _; simpl in Hin; intuition discriminate ] ].

(** what the script does when a checked program failed *)
Ltac gives_up :=
  let rc := fresh "rc" in
  let Hrc := fresh "Hrc" in
  let w := fresh "w" in
  intros rc Hrc w; unfold bind, print, sys_exit;
  destruct (Z.eqb_spec rc 0); [contradiction|]; simpl;
  split; [reflexivity | eexists; split; [reflexivity | repeat constructor]].

Ltac final_step :=
  lazymatch goal with
  | |- final _ _ _ (bind (subprocess_call _ _ _) _) =>
      apply final_checked_call;
      [exact failed_step_is_failure | gives_up | cbn [Z.eqb negb]]
  | |- final _ _ _ (bind _ _) => apply final_bind; [|intros ?]
  | |- final _ _ _ (ret _) => apply final_ret
  | |- final _ _ _ (when ?b _) => unfold when at 1; destruct b
  | |- final _ _ _ (for_each _ _) => apply final_for_each; intros ?
  | |- final _ _ _ (print _) => apply final_print, print_not_failed
  | |- final _ _ _ (if ?b then _ else _) => destruct b
  | |- final _ _ _ _ =>
      first
        [ apply final_quiet;
          first [ apply quiet_path_exists | apply quiet_path_mkdir
                | apply quiet_path_mkdir_parents | apply quiet_rmtree ]
        | progress unfold acquire, apply_patches, apply_patch, configure,
            build, install_stage ]
  end.

Lemma final_remove_dir h X p :
  final failed_step (Exits 1) is_print (remove_dir h X p).
Proof.
  pose proof (local_Forall (fun e => ~ failed_step e)) as HL.
  apply (final_of_emits _ _ _ (fun e => ~ failed_step e)); [auto|].
  unfold emits. repeat produces_step HL; not_failed_step.
Qed.

Lemma acquire_fails_fast h X a patches :
  final failed_step (Exits 1) is_print (acquire h X a patches).
Proof. repeat first [apply final_remove_dir | final_step]. Qed.

Lemma configure_fails_fast h X a sysroot :
  final failed_step (Exits 1) is_print (configure h X a sysroot).
Proof. repeat first [apply final_remove_dir | final_step]. Qed.

Lemma build_fails_fast h X a :
  final failed_step (Exits 1) is_print (build h X a).
Proof. repeat first [apply final_remove_dir | final_step]. Qed.

Lemma install_fails_fast h X :
  final failed_step (Exits 1) is_print (install_stage h X).
Proof. repeat first [apply final_remove_dir | final_step]. Qed.

Lemma sign_darwin_file_fails_fast h X top file :
  final failed_step (Exits 1) is_print (sign_darwin_file h X top file).
Proof.
  intros w.
  destruct (sign_darwin_file_shape h X top file w) as [E | (evs & o & S & H)].
  - exists []. rewrite app_nil_r. split; [exact E|].
    intros pre e post Heq. destruct pre; discriminate Heq.
  - inversion S as [| | c b Hu | c b rc Hu Hrc | c b c' b' rc Hu Hc | c b c' b' Hu Hc];
      subst; try (destruct (Z.eqb_spec rc 0)); destruct H as [E Ho];
      (eexists; split; [exact E|]); intros pre e0 post Heq Hb;
      event_position Heq;
      destruct Hb as (c0 & b0 & rc0 & Heq & Hrc' & Hck);
      try discriminate Heq; injection Heq as <- <- <-;
      try (exfalso; apply Hrc'; reflexivity);
      try (exfalso; exact (unlock_not_checked _ Hu Hck));
      try contradiction.
    all: rewrite Ho; split; [reflexivity | repeat constructor].
Qed.

Lemma sign_stage_fails_fast h X fuel a :
  final failed_step (Exits 1) is_print (sign_stage h X fuel a).
Proof.
  pose proof (local_Forall (fun e => ~ failed_step e)) as HL.
  unfold sign_stage.
  destruct (sign a); [|apply final_ret].
  destruct (is_darwin h).
  - apply final_os_walk. intros top dirs files.
    apply final_for_each. intros file. apply sign_darwin_file_fails_fast.
  - apply (final_of_emits _ _ _ (fun e => ~ failed_step e)); [auto|].
    unfold emits. repeat produces_step HL.
    all: try (apply produces_try_timeServers; [exact HL | intros ..]).
    all: not_failed_step.
Qed.

(** the stages of a sequence, one after the other *)
Ltac each_stage tac :=
  first [ apply final_bind; [tac | intros ?; each_stage tac] | tac ].

Lemma main_fails_fast h X fuel a :
  final failed_step (Exits 1) is_print (main h X fuel a).
Proof.
  pose proof (local_Forall (fun e => ~ failed_step e)) as HL.
  unfold main.
  each_stage ltac:(
    first [ apply acquire_fails_fast | apply configure_fails_fast
          | apply build_fails_fast | apply install_fails_fast
          | apply sign_stage_fails_fast
          | apply (final_of_emits _ _ _ (fun e => ~ failed_step e)); [auto|];
            unfold emits; repeat produces_step HL; not_failed_step ]).
Qed.

(** X3.  When [git], [cmake], the build tool or [codesign] returns a
    status other than 0, the run stops there: nothing but prints follows
    in the trace, and the run ends in [sys.exit(1)]. *)
Theorem failed_step_ends_the_run h X fuel a t env lines pre e post :
  trace (snd (run h X fuel a t env lines)) = pre ++ e :: post ->
  failed_step e ->
  fst (run h X fuel a t env lines) = Exit 1%Z /\ Forall is_print post.
Proof.
  intros Heq Hb. unfold run in *.
  destruct (main_fails_fast h X fuel a (boot t env lines)) as (evs & E & HF).
  rewrite E in Heq. destruct (HF pre e post Heq Hb) as [He Hp].
  split; [|exact Hp].
  destruct (fst (main h X fuel a (boot t env lines))); simpl in He;
    try contradiction.
  rewrite He. reflexivity.
Qed.

Lemma failed_step_ends_the_run_witness :
  fst Runs.broken_configure = Exit 1%Z /\
  Forall is_print (skipn 19 (trace (snd Runs.broken_configure))).
Proof.
  apply (failed_step_ends_the_run Demo.linux
           (Demo.externals_of Demo.linux Runs.cmake_fails) 8 Demo.unattended
           Demo.checkout ∅ []
           (firstn 18 (trace (snd Runs.broken_configure)))
           (Demo.event_at 18 (trace (snd Runs.broken_configure)))).
  - vm_compute. reflexivity.
  - exists (Demo.call_of (Demo.event_at 18 (trace (snd Runs.broken_configure)))),
      (Demo.before_of (Demo.event_at 18 (trace (snd Runs.broken_configure)))),
      1%Z.
    split; [vm_compute; reflexivity|]. split; [discriminate|].
    split; [reflexivity|].
    exists "cmake". eexists. split; [vm_compute; reflexivity|].
    right. left. reflexivity.
Defined.

(** ** The two questions *)

(** [if input(text) != "y": print("Aborted"); sys.exit(1)] *)
Lemma question_refused text :
  final refusal (Exits 1) aborted
    (answer <- input text ;;
     if negb (String.eqb answer "y") then print "Aborted" ;; sys_exit 1%Z
     else ret tt).
Proof.
  intros w. unfold bind, input, print, sys_exit, ret.
  destruct (stdin w) as [| l more]; simpl.
  - eexists. split; [reflexivity|]. intros pre e post Heq (t & ans & -> & _).
    destruct pre as [| x pre]; [discriminate Heq | destruct pre; discriminate Heq].
  - destruct (String.eqb_spec l "y") as [-> | Hl]; simpl.
    + eexists. split; [reflexivity|]. intros pre e post Heq (t & ans & -> & Hne).
      destruct pre as [| x pre]; [|destruct pre; discriminate Heq].
      injection Heq as _ <- _. congruence.
    + eexists. split; [rewrite <- app_assoc; reflexivity|].
      intros pre e post Heq (t & ans & -> & Hne).
      destruct pre as [| x pre].
      * injection Heq as _ _ <-. split; [reflexivity | repeat constructor].
      * destruct pre as [| y pre]; [discriminate Heq|].
        destruct pre; discriminate Heq.
Qed.

Lemma question_unanswered text :
  final no_answer (Raises EOFError) nothing
    (answer <- input text ;;
     if negb (String.eqb answer "y") then print "Aborted" ;; sys_exit 1%Z
     else ret tt).
Proof.
  intros w. unfold bind, input, print, sys_exit, ret.
  destruct (stdin w) as [| l more]; simpl.
  - eexists. split; [reflexivity|]. intros pre e post Heq _.
    destruct pre as [| x pre]; [|destruct pre; discriminate Heq].
    injection Heq as _ <-. split; [reflexivity | constructor].
  - destruct (String.eqb l "y"); simpl.
    + eexists. split; [reflexivity|]. intros pre e post Heq (t & ->).
      destruct pre as [| x pre]; [discriminate Heq | destruct pre; discriminate Heq].
    + eexists. split; [rewrite <- app_assoc; reflexivity|].
      intros pre e post Heq (t & ->).
      destruct pre as [| x pre]; [discriminate Heq|].
      destruct pre as [| y pre]; [discriminate Heq|].
      destruct pre; discriminate Heq.
Qed.

Lemma not_input_refusal e : not_input e -> ~ refusal e.
Proof. intros H (t & ans & -> & _). exact H. Qed.

Lemma not_input_no_answer e : not_input e -> ~ no_answer e.
Proof. intros H (t & ->). exact H. Qed.

(** a run stops at a question the way the question does *)
Lemma main_at_questions h X fuel a bad s rest :
  (forall e, not_input e -> ~ bad e) ->
  (forall text,
     final bad s rest
       (answer <- input text ;;
        if negb (String.eqb answer "y") then print "Aborted" ;; sys_exit 1%Z
        else ret tt)) ->
  final bad s rest (main h X fuel a).
Proof.
  intros Hok Hq. pose proof (local_Forall not_input) as HL.
  assert (Hc : final bad s rest (confirm a)).
  { unfold confirm. destruct (prompt a); [apply Hq | apply final_ret]. }
  assert (Ho : final bad s rest (overwrite_check h a)).
  { unfold overwrite_check. apply final_bind; [apply final_quiet, quiet_path_exists|].
    intros [|]; [|apply final_ret].
    destruct (prompt a); [apply Hq | apply final_ret]. }
  unfold main.
  each_stage ltac:(
    first [ exact Hc | exact Ho
          | apply (final_of_emits _ _ _ not_input); [exact Hok|];
            unfold emits; repeat produces_step HL;
            try (apply produces_try_timeServers; [exact HL | intros ..]);
            repeat constructor ]).
Qed.

(** X4.  An answer other than [y] to either question ends the run in
    [sys.exit(1)], and all that follows the answer in the trace is the
    line [Aborted].  When standard input ends at a question, the run dies
    of [EOFError] and nothing follows. *)
Theorem refusal_ends_the_run h X fuel a t env lines pre e post :
  trace (snd (run h X fuel a t env lines)) = pre ++ e :: post ->
  (refusal e ->
   fst (run h X fuel a t env lines) = Exit 1%Z /\ Forall aborted post) /\
  (no_answer e ->
   fst (run h X fuel a t env lines) = Raise EOFError /\ post = []).
Proof.
  intros Heq. unfold run in *. split; intros Hb.
  - destruct (main_at_questions h X fuel a refusal (Exits 1) aborted
                not_input_refusal question_refused (boot t env lines))
      as (evs & E & HF).
    rewrite E in Heq. destruct (HF pre e post Heq Hb) as [He Hp].
    split; [|exact Hp].
    destruct (fst (main h X fuel a (boot t env lines))); simpl in He;
      try contradiction.
    rewrite He. reflexivity.
  - destruct (main_at_questions h X fuel a no_answer (Raises EOFError) nothing
                not_input_no_answer question_unanswered (boot t env lines))
      as (evs & E & HF).
    rewrite E in Heq. destruct (HF pre e post Heq Hb) as [He Hp].
    split.
    + destruct (fst (main h X fuel a (boot t env lines))); simpl in He;
        try contradiction.
      rewrite He. reflexivity.
    + destruct post as [| e' post]; [reflexivity|].
      inversion Hp as [| ? ? Hn _]. destruct Hn.
Qed.

Lemma refusal_ends_the_run_witness :
  fst Demo.declined = Exit 1%Z /\
  Forall aborted (skipn 11 (trace (snd Demo.declined))).
Proof.
  apply (refusal_ends_the_run Demo.linux
           (Demo.externals_of Demo.linux Demo.plain) 8 Demo.flags Demo.built ∅
           ["y"; "n"]
           (firstn 10 (trace (snd Demo.declined)))
           (Demo.event_at 10 (trace (snd Demo.declined)))).
  - vm_compute. reflexivity.
  - exists overwrite_prompt, "n". split; [vm_compute; reflexivity | discriminate].
Defined.

(** ** Runs that end well *)

Lemma bind_ok {A B} (m : M A) (k : A -> M B) w y w' :
  bind m k w = (Ok y, w') ->
  exists x w1, m w = (Ok x, w1) /\ k x w1 = (Ok y, w').
Proof.
  unfold bind. destruct (m w) as [[x | c | e |] w1]; try discriminate.
  intros H. eauto.
Qed.

Lemma went_through_app Ps1 Ps2 e1 e2 :
  went_through Ps1 e1 -> went_through Ps2 e2 ->
  went_through (Ps1 ++ Ps2) (e1 ++ e2).
Proof.
  intros (es1 & F1 & S1) (es2 & F2 & S2). exists (es1 ++ es2).
  split; [apply Forall2_app; assumption | apply sublist_app; assumption].
Qed.

Lemma went_through_nil evs : went_through [] evs.
Proof. exists []. split; [constructor | apply sublist_nil_l]. Qed.

Lemma passes_bind {A B} Ps1 Ps2 (m : M A) (k : A -> M B) :
  passes (went_through Ps1) m -> (forall x, passes (went_through Ps2) (k x)) ->
  passes (went_through (Ps1 ++ Ps2)) (bind m k).
Proof.
  intros Hm Hk w y w' H. apply bind_ok in H. destruct H as (x & w1 & H1 & H2).
  destruct (Hm _ _ _ H1) as (e1 & E1 & P1).
  destruct (Hk x _ _ _ H2) as (e2 & E2 & P2).
  exists (e1 ++ e2). split; [rewrite E2, E1, app_assoc; reflexivity|].
  apply went_through_app; assumption.
Qed.

Lemma passes_any {A} (m : M A) :
  produces (fun _ => True) m -> passes (went_through []) m.
Proof.
  intros Hm w x w' H. destruct (Hm w) as (evs & E & _). rewrite H in E.
  exists evs. split; [exact E | apply went_through_nil].
Qed.

Lemma passes_skip {A B} Ps (m : M A) (k : A -> M B) :
  produces (fun _ => True) m -> (forall x, passes (went_through Ps) (k x)) ->
  passes (went_through Ps) (bind m k).
Proof.
  intros Hm Hk. apply (passes_bind [] Ps); [apply passes_any, Hm | exact Hk].
Qed.

(** a program is run and its status checked *)
Lemma passes_checked {B} X (P : call -> Prop) Ps argv dir (k : Z -> M B) :
  (forall rc, rc <> 0%Z -> forall w x w', k rc w <> (Ok x, w')) ->
  passes (went_through Ps) (k 0%Z) ->
  P {| via_shell := false; argv := argv; workdir := dir |} ->
  passes (went_through (P :: Ps)) (bind (subprocess_call X argv dir) k).
Proof.
  intros Hfail Hgo HP w x w' H. rewrite subprocess_call_run in H. cbv zeta in H.
  set (c := {| via_shell := false; argv := argv; workdir := dir |}) in *.
  destruct (launched (os_exec X c w)); [|discriminate H].
  destruct (Z.eq_dec (returncode (os_exec X c w)) 0%Z) as [E | E].
  - rewrite E in H. destruct (Hgo _ _ _ H) as (evs & Et & Hw).
    exists ([Call c (fs w) (Some 0%Z)] ++ evs).
    split; [rewrite Et; simpl; rewrite <- app_assoc; reflexivity|].
    apply (went_through_app [P] Ps); [|exact Hw].
    exists [Call c (fs w) (Some 0%Z)].
    split; [|reflexivity]. constructor; [|constructor]. exists c, (fs w). auto.
  - exfalso. exact (Hfail _ E _ _ _ H).
Qed.

Lemma local_True : local (fun _ : list event => True).
Proof. split; auto. Qed.

(** pieces that add to the trace whatever they add *)
Ltac any_trace :=
  let HL := fresh "HL" in
  pose proof local_True as HL;
  repeat produces_step HL;
  try (apply produces_try_timeServers; [exact HL | intros ..]);
  exact I.

(** a failed program is never followed by a normal end *)
Ltac never_ok :=
  let rc := fresh "rc" in
  let Hrc := fresh "Hrc" in
  intros rc Hrc ? ? ?; unfold bind, print, sys_exit;
  destruct (Z.eqb_spec rc 0); [contradiction|]; simpl; discriminate.

Ltac passes_step :=
  lazymatch goal with
  | |- passes (went_through (_ :: _)) (bind (subprocess_call _ _ _) _) =>
      apply passes_checked;
      [never_ok | cbn [Z.eqb negb] | first [reflexivity | eexists; reflexivity]]
  | |- passes (went_through []) _ => apply passes_any; any_trace
  | |- passes (went_through _) (bind _ _) =>
      apply passes_skip; [any_trace | intros ?]
  | |- passes _ (if ?b then _ else _) => destruct b
  | |- passes _ (when ?b _) => unfold when at 1; destruct b
  end.

Lemma acquire_passes h X a patches :
  passes (went_through
            (if no_clone a then [] else [eq (clone_call h); eq (checkout_call h)]))
    (acquire h X a patches).
Proof.
  unfold acquire. destruct (no_clone a); simpl; repeat passes_step.
Qed.

Lemma configure_passes h X a sysroot :
  passes (went_through [is_cmake_call h a]) (configure h X a sysroot).
Proof. unfold configure. repeat passes_step. Qed.

Lemma build_passes h X a :
  passes (went_through [eq (build_call h a)]) (build h X a).
Proof. unfold build. repeat passes_step. Qed.

Lemma install_passes h X :
  passes (went_through [eq (install_call h)]) (install_stage h X).
Proof. unfold install_stage. repeat passes_step. Qed.

Lemma main_passes h X fuel a :
  passes (went_through (steps h a)) (main h X fuel a).
Proof.
  change (steps h a)
    with ([] ++ [] ++ [] ++ [] ++ [] ++ [] ++ [] ++ [] ++ []
          ++ (if no_clone a then []
              else [eq (clone_call h); eq (checkout_call h)])
          ++ [is_cmake_call h a] ++ [eq (build_call h a)]
          ++ [eq (install_call h)] ++ [] ++ [] ++ []).
  unfold main.
  repeat (apply passes_bind;
          [ first [ apply acquire_passes | apply configure_passes
                  | apply build_passes | apply install_passes
                  | apply passes_any; any_trace ]
          | intros ? ]).
  apply passes_any. any_trace.
Qed.

(** X5.  A run that ends normally has run [cmake], the build tool and its
    [install] target, in this order and each with status 0, and before
    them [git clone] and [git checkout] unless [--no-clone] was given.
    The install target is run whatever [--no-install] says: the flag
    changes the printed plan only. *)
Theorem normal_end_means_all_steps h X fuel a t env lines :
  fst (run h X fuel a t env lines) = Ok tt ->
  went_through (steps h a) (trace (snd (run h X fuel a t env lines))).
Proof.
  unfold run. intros H.
  destruct (main h X fuel a (boot t env lines)) as [o w'] eqn:E.
  simpl in H. subst o.
  destruct (main_passes h X fuel a _ _ _ E) as (evs & Et & Hw).
  simpl in *. rewrite Et. exact Hw.
Qed.

Lemma normal_end_means_all_steps_witness :
  went_through (steps Demo.linux Demo.flags) (trace (snd Demo.first_build)).
Proof.
  apply (normal_end_means_all_steps Demo.linux
           (Demo.externals_of Demo.linux Demo.plain) 8 Demo.flags
           Demo.checkout ∅ ["y"]).
  vm_compute. reflexivity.
Defined.

(** ** The target of [git clone] *)

Lemma remove_lookup p t t' : FS.remove p t = Some t' -> FS.lookup p t' = None.
Proof.
  unfold FS.remove. revert t t'.
  induction p as [| c p IH]; intros t t'; [discriminate|].
  destruct t as [x d | es]; [destruct p; discriminate|].
  destruct p as [| c' p]; simpl.
  - destruct (FS.assoc c es); [|discriminate]. intros [= <-]. simpl.
    rewrite assoc_del_assoc_eq. reflexivity.
  - destruct (FS.assoc c es) as [tc |]; [|discriminate].
    match goal with
    | |- match ?m with _ => _ end = _ -> _ =>
        destruct m as [tc' |] eqn:Em; [|discriminate]
    end.
    intros [= <-]. simpl. rewrite assoc_set_assoc_eq. exact (IH _ _ Em).
Qed.

(** off Windows, what follows [if p.exists(): remove_dir(p)] starts with
    nothing at [p] *)
Lemma produces_after_remove_dir {B} h X P p (k : unit -> M B) :
  is_win32 h = false -> local P ->
  (forall w, FS.lookup p (fs w) = None -> extends P w (snd (k tt w))) ->
  produces P (bind (path_exists p) (fun s => bind (when s (remove_dir h X p)) k)).
Proof.
  intros Hwin HL Hk w. unfold bind at 1. unfold path_exists, FS.exists_.
  destruct (FS.lookup p (fs w)) as [n |] eqn:El.
  - unfold when, remove_dir. rewrite Hwin. unfold bind, rmtree. rewrite El.
    destruct n as [x d | es]; [apply extends_refl, HL|].
    destruct (FS.remove p (fs w)) as [t' |] eqn:Er; [|apply extends_refl, HL].
    destruct (Hk (set_fs t' w)) as (evs & E & HP).
    + simpl. exact (remove_lookup _ _ _ Er).
    + exists evs. split; [exact E | exact HP].
  - unfold when, bind, ret. apply Hk. exact El.
Qed.

Lemma unlocker_not_git_clone h c :
  is_unlock c -> c <> clone_call h.
Proof. intros (home & ->). discriminate. Qed.

Ltac not_clone :=
  repeat constructor; unfold clone_target_absent, clone_call, parallel;
  try (destruct (is_win _)); simpl;
  let Heq := fresh "Heq" in intros Heq; discriminate Heq.

Lemma acquire_clone_target h X a patches :
  is_win32 h = false ->
  emits (clone_target_absent h) (acquire h X a patches).
Proof.
  intros Hwin. pose proof (local_Forall (clone_target_absent h)) as HL.
  unfold emits, acquire.
  destruct (negb (no_clone a)); [|apply produces_ret, HL].
  stage HL ltac:(repeat produces_step HL; repeat constructor).
  stage HL ltac:(repeat produces_step HL).
  stage HL ltac:(repeat produces_step HL).
  apply produces_after_remove_dir; [exact Hwin | exact HL|]. intros w Hw.
  unfold subprocess_call at 1. rewrite bind_assoc.
  apply extends_popen_bind; [exact HL | |].
  - intros r. repeat constructor. intros _. exact Hw.
  - intros x. repeat produces_step HL; try solve [repeat constructor]; not_clone.
Qed.

Lemma main_clone_target h X fuel a :
  is_win32 h = false ->
  emits (clone_target_absent h) (main h X fuel a).
Proof.
  intros Hwin. pose proof (local_Forall (clone_target_absent h)) as HL.
  unfold emits, main.
  do 9 stage HL ltac:(repeat produces_step HL;
                       try solve [repeat constructor]; not_clone).
  stage HL ltac:(apply acquire_clone_target; exact Hwin).
  repeat produces_step HL.
  all: try (apply produces_try_timeServers; [exact HL | intros ..]).
  all: try solve [repeat constructor].
  all: not_clone.
Qed.

(** X6.  Off Windows, whenever [git clone] is started there is nothing at
    the source path: a source tree left by an earlier run has been
    removed, so the clone never lands in an old checkout. *)
Theorem clone_starts_fresh h X fuel a t env lines before result :
  is_win32 h = false ->
  In (Call (clone_call h) before result)
    (trace (snd (run h X fuel a t env lines))) ->
  FS.lookup (source_path h) before = None.
Proof.
  intros Hwin Hin.
  destruct (main_clone_target h X fuel a Hwin (boot t env lines)) as (evs & E & HQ).
  unfold run in Hin. rewrite E in Hin. simpl in Hin.
  rewrite List.Forall_forall in HQ. exact (HQ _ Hin eq_refl).
Qed.

(** in the rebuild over an earlier checkout, the old sources are gone when
    the clone starts *)
Lemma clone_starts_fresh_witness :
  FS.lookup (source_path Demo.linux)
    (Demo.before_of (Demo.event_at 12 (trace (snd Demo.rebuild)))) = None.
Proof.
  apply (clone_starts_fresh Demo.linux (Demo.externals_of Demo.linux Demo.plain)
           8 Demo.no_clean Demo.built ∅ ["y"; "y"] _
           (Demo.result_of (Demo.event_at 12 (trace (snd Demo.rebuild))))).
  - reflexivity.
  - apply (nth_error_In _ 12). vm_compute. reflexivity.
Defined.

(** ** The lines of the compiler environment *)












(** ** A checkout without patches directory *)

(** X8.  The patches directory is listed before anything else is done.
    On a host that is neither Windows nor macOS, when there is no
    directory at [patches] next to the script, the run dies of an
    exception ([FileNotFoundError], or [NotADirectoryError] for a file of
    that name) before the operator is asked anything: the plan is printed,
    standard input is not read, the file system is left as it was and no
    program is started.  This is so also when no patch is wanted. *)
Theorem patches_directory_is_required h X fuel a t env lines :
  is_win h = false -> is_darwin h = false ->
  (forall es, FS.lookup (patches_path h) t <> Some (Dir es)) ->
  let r := run h X fuel a t env lines in
  fst r = Raise (match FS.lookup (patches_path h) t with
                 | None => FileNotFoundError
                 | Some _ => NotADirectoryError
                 end) /\
  fs (snd r) = t /\ stdin (snd r) = lines /\ Forall is_print (trace (snd r)).
Proof.
  intros Hwin Hdar Hno r. subst r.
  unfold run, main, import_vcvars, find_sysroot. rewrite Hwin, Hdar.
  unfold print_plan, discover_patches, path_iterdir, bind, print, ret. simpl.
  destruct (FS.lookup (patches_path h) t) as [[x d | es] |]; simpl.
  - repeat split; repeat constructor.
  - exfalso. exact (Hno es eq_refl).
  - repeat split; repeat constructor.
Qed.

Lemma patches_directory_is_required_witness :
  fst (run Demo.linux (Demo.externals_of Demo.linux Demo.plain) 8 Demo.unattended
         (Dir [("work", Dir [])]) ∅ [])
  = Raise FileNotFoundError.
Proof.
  apply (patches_directory_is_required Demo.linux
           (Demo.externals_of Demo.linux Demo.plain) 8 Demo.unattended
           (Dir [("work", Dir [])]) ∅ []).
  - reflexivity.
  - reflexivity.
  - intros es. discriminate.
Defined.

(** ** Packaging *)

Lemma lookup_app p q t :
  FS.lookup (p ++ q) t
  = match FS.lookup p t with
    | Some t' => FS.lookup q t'
    | None => None
    end.
Proof.
  revert t. induction p as [| c p IH]; intros t; simpl; [reflexivity|].
  destruct (FS.child c t); [apply IH | reflexivity].
Qed.

Lemma put_lookup p n t t' : FS.put p n t = Some t' -> FS.lookup p t' = Some n.
Proof.
  unfold FS.put. revert t t'.
  induction p as [| c p IH]; intros t t'; [discriminate|].
  destruct t as [x d | es]; [destruct p; discriminate|].
  destruct p as [| c' p]; simpl.
  - intros [= <-]. simpl. rewrite assoc_set_assoc_eq. reflexivity.
  - destruct (FS.assoc c es) as [tc |]; [|discriminate].
    match goal with
    | |- match ?m with _ => _ end = _ -> _ =>
        destruct m as [tc' |] eqn:Em; [|discriminate]
    end.
    intros [= <-]. simpl. rewrite assoc_set_assoc_eq. exact (IH _ _ Em).
Qed.

Lemma put_defined p n t n0 :
  p <> [] -> FS.lookup p t = Some n0 -> exists t', FS.put p n t = Some t'.
Proof.
  unfold FS.put. revert t.
  induction p as [| c p IH]; intros t Hne; [congruence|].
  destruct t as [x d | es]; [discriminate|].
  destruct p as [| c' p]; simpl.
  - intros _. eexists. reflexivity.
  - destruct (FS.assoc c es) as [tc |]; [|discriminate]. intros Hl.
    destruct (IH tc ltac:(discriminate) Hl) as (t' & Ht').
    simpl in Ht'. rewrite Ht'. eexists. reflexivity.
Qed.

(** a name bound in a directory is listed with what it is bound to *)
Lemma listing_assoc seen es n t :
  FS.assoc n es = Some t -> FS.inb n seen = false ->
  In (n, t) (FS.listing seen es).
Proof.
  revert seen. induction es as [| [m u] es IH]; intros seen; simpl;
    [discriminate|].
  destruct (String.eqb_spec m n) as [-> | Hne].
  - intros [= ->] Hs. rewrite Hs. left. reflexivity.
  - intros Ha Hs. destruct (FS.inb m seen).
    + apply IH; assumption.
    + right. apply IH; [exact Ha|]. simpl.
      destruct (String.eqb_spec m n); [contradiction | exact Hs].
Qed.

Lemma assoc_files_of es f x data :
  FS.assoc f es = Some (File x data) -> In f (FS.files_of es).
Proof.
  intros Ha. unfold FS.files_of.
  apply (in_map fst _ (f, File x data)).
  apply List.filter_In. split; [|reflexivity].
  apply listing_assoc; [exact Ha | reflexivity].
Qed.

Lemma assoc_dirs_of es d es' :
  FS.assoc d es = Some (Dir es') -> In d (FS.dirs_of es).
Proof.
  intros Ha. unfold FS.dirs_of.
  apply (in_map fst _ (d, Dir es')).
  apply List.filter_In. split; [|reflexivity].
  apply listing_assoc; [exact Ha | reflexivity].
Qed.

Lemma archive_away_from_install h q :
  diverge (archive_path h) (install_path h ++ q).
Proof.
  unfold archive_path, artifact_path, install_path, yasm_dir.
  rewrite <- !app_assoc. apply diverge_app. simpl. exact I.
Qed.

(** a file that cannot be read ends the packaging *)
Lemma archive_file_ok h X top rel file w w' :
  archive_file h X top rel file w = (Ok tt, w') ->
  exists x data, FS.lookup (top ++ [file]) (fs w) = Some (File x data).
Proof.
  unfold archive_file, bind, print, os_access_x, read_all. simpl.
  destruct (FS.lookup (top ++ [file]) (fs w)) as [[x data | es] |] eqn:El;
    simpl; rewrite ?El; simpl; intros H; try discriminate H.
  eauto.
Qed.

(** one file: a line is printed and one entry is added at the end of the
    archive; nothing else changes *)
Lemma archive_file_step h X top file w ax old x data :
  FS.lookup (archive_path h) (fs w) = Some (File ax old) ->
  FS.lookup (top ++ [file]) (fs w) = Some (File x data) ->
  exists w' text,
    archive_file h X top (relpath_of h top) file w = (Ok tt, w') /\
    trace w' = trace w ++ [Print text; entry_of h top file x data] /\
    FS.lookup (archive_path h) (fs w')
    = Some (File ax (archive_from X old [entry_of h top file x data])) /\
    forall p, diverge (archive_path h) p ->
      FS.lookup p (fs w') = FS.lookup p (fs w).
Proof.
  intros Ha El.
  destruct (put_defined (archive_path h)
              (File ax (archive_from X old [entry_of h top file x data]))
              (fs w) (File ax old)) as (t' & Ht');
    [unfold archive_path; destruct (artifact_path h); discriminate | exact Ha |].
  unfold archive_file, bind, print, os_access_x, read_all, zip_writestr. simpl.
  rewrite El. simpl. rewrite El. simpl. rewrite Ha.
  simpl in Ht'. unfold entry_of in Ht'. simpl in Ht'. rewrite Ht'.
  eexists _, _. split; [reflexivity|]. simpl.
  split; [rewrite <- app_assoc; reflexivity|].
  split; [exact (put_lookup _ _ _ _ Ht')|].
  intros p Hp. exact (put_frame _ _ _ _ _ Hp Ht').
Qed.

Lemma packed_refl h X w : packed h X w w [].
Proof.
  split; [rewrite app_nil_r; reflexivity|]. split; [|reflexivity].
  intros ax old H. exact H.
Qed.

Lemma packed_trans h X w1 w2 w3 e1 e2 :
  is_archive h w1 ->
  packed h X w1 w2 e1 -> packed h X w2 w3 e2 -> packed h X w1 w3 (e1 ++ e2).
Proof.
  intros (ax & old & Ha) (T1 & A1 & I1) (T2 & A2 & I2).
  split; [rewrite T2, T1, app_assoc; reflexivity|]. split.
  - intros ax' old' Ha'. unfold archive_from. rewrite fold_left_app.
    apply A2, A1, Ha'.
  - intros q. rewrite I2. apply I1.
Qed.

Lemma packed_is_archive h X w w' evs :
  is_archive h w -> packed h X w w' evs -> is_archive h w'.
Proof.
  intros (ax & old & Ha) (_ & A & _).
  exists ax, (archive_from X old evs). exact (A _ _ Ha).
Qed.

Lemma packed_lookup h X w w' evs p r :
  packed h X w w' evs -> under_install h p ->
  FS.lookup (p ++ r) (fs w') = FS.lookup (p ++ r) (fs w).
Proof. intros (_ & _ & I) (q & ->). rewrite <- app_assoc. apply I. Qed.

(** the files of one directory *)
Lemma for_each_packed h X top files w w' :
  for_each files (archive_file h X top (relpath_of h top)) w = (Ok tt, w') ->
  under_install h top -> is_archive h w ->
  exists evs,
    packed h X w w' evs /\
    (forall f x data,
       In f files -> FS.lookup (top ++ [f]) (fs w) = Some (File x data) ->
       In (entry_of h top f x data) evs) /\
    Forall (entry_of_tree h (fs w)) evs.
Proof.
  revert w. induction files as [| f files IH]; intros w H Hu Ha.
  - injection H as <-. exists []. split; [apply packed_refl|].
    split; [intros f x data []| constructor].
  - simpl in H. apply bind_ok in H. destruct H as ([] & w1 & H1 & H2).
    destruct (archive_file_ok _ _ _ _ _ _ _ H1) as (x & data & El).
    destruct Ha as (ax & old & Har).
    destruct (archive_file_step h X top f w ax old x data Har El)
      as (w1' & text & E1 & T1 & A1 & F1).
    rewrite E1 in H1. injection H1 as <-.
    assert (P1 : packed h X w w1' [Print text; entry_of h top f x data]).
    { split; [exact T1|]. split.
      - intros ax' old' Har'. rewrite Har in Har'. injection Har' as <- <-.
        exact A1.
      - intros q. apply F1, archive_away_from_install. }
    assert (Ha1 : is_archive h w1').
    { eapply packed_is_archive; [|exact P1]. eexists _, _. exact Har. }
    destruct (IH w1' H2 Hu Ha1) as (evs & P2 & C2 & S2).
    exists ([Print text; entry_of h top f x data] ++ evs).
    split; [eapply packed_trans; [eexists _, _; exact Har | exact P1 | exact P2]|].
    split.
    + intros f' x' data' [<- | Hin] El'.
      * rewrite El in El'. injection El' as <- <-. right. left. reflexivity.
      * right. right. apply C2; [exact Hin|].
        rewrite (packed_lookup h X w w1' _ top [f'] P1 Hu). exact El'.
    + constructor; [left; exact I|].
      constructor; [right; exists top, f, x, data; auto|].
      eapply List.Forall_impl; [|exact S2].
      intros e [Hp | (p & f' & x' & data' & Hp & Hl & ->)]; [left; exact Hp|].
      right. exists p, f', x', data'. split; [exact Hp|]. split; [|reflexivity].
      rewrite <- (packed_lookup h X w w1' _ p [f'] P1 Hp). exact Hl.
Qed.

Lemma lookup_below_file q x d : q <> [] -> FS.lookup q (File x d) = None.
Proof. destruct q; [congruence | reflexivity]. Qed.

(** the walk: every file below a pending directory gets its entry *)
Lemma os_walk_packed h X fuel :
  forall pending w w',
    os_walk fuel pending (archive_directory h X) w = (Ok tt, w') ->
    Forall (under_install h) pending -> is_archive h w ->
    exists evs,
      packed h X w w' evs /\
      (forall top q f x data,
         In top pending ->
         FS.lookup (top ++ q ++ [f]) (fs w) = Some (File x data) ->
         In (entry_of h (top ++ q) f x data) evs) /\
      Forall (entry_of_tree h (fs w)) evs.
Proof.
  induction fuel as [| fuel IH]; intros [| top rest] w w' H Hu Ha;
    try discriminate H;
    try (injection H as <-; exists []; split; [apply packed_refl|];
         split; [intros ? ? ? ? ? []| constructor]).
  simpl in H. inversion Hu as [| ? ? Htop Hrest]; subst.
  destruct (FS.lookup top (fs w)) as [[x d | es] |] eqn:El.
  - (* a file where a directory was expected: nothing below it *)
    destruct (IH _ _ _ H Hrest Ha) as (evs & P & C & S).
    exists evs. split; [exact P|]. split; [|exact S].
    intros top' q f x' data' [<- | Hin] Hl; [|exact (C _ _ _ _ _ Hin Hl)].
    rewrite lookup_app, El, lookup_below_file in Hl; [discriminate Hl|].
    destruct q; discriminate.
  - apply bind_ok in H. destruct H as ([] & w1 & H1 & H2).
    destruct (for_each_packed h X top _ w w1 H1 Htop Ha) as (e1 & P1 & C1 & S1).
    assert (Ha1 : is_archive h w1) by (eapply packed_is_archive; eauto).
    assert (Hu1 : Forall (under_install h)
                    (map (fun d => top ++ [d]) (FS.dirs_of es) ++ rest)).
    { apply Forall_app. split; [|exact Hrest].
      apply List.Forall_forall. intros p Hp. apply in_map_iff in Hp.
      destruct Hp as (d & <- & _). destruct Htop as (q & ->).
      exists (q ++ [d]). rewrite app_assoc. reflexivity. }
    destruct (IH _ _ _ H2 Hu1 Ha1) as (e2 & P2 & C2 & S2).
    exists (e1 ++ e2). split; [eapply packed_trans; eauto|]. split.
    + intros top' q f x' data' [<- | Hin] Hl.
      * destruct q as [| d q].
        -- rewrite app_nil_r. simpl in Hl.
           apply in_or_app. left. apply C1; [|exact Hl].
           rewrite lookup_app, El in Hl. simpl in Hl.
           destruct (FS.assoc f es) as [[xf df | esf] |] eqn:Ef;
             try discriminate Hl.
           eapply assoc_files_of. exact Ef.
        -- apply in_or_app. right.
           assert (Hd : In (top ++ [d])
                          (map (fun d => top ++ [d]) (FS.dirs_of es) ++ rest)).
           { apply in_or_app. left. apply in_map_iff. exists d.
             split; [reflexivity|].
             rewrite lookup_app, El in Hl. simpl in Hl.
             destruct (FS.assoc d es) as [[xd dd | esd] |] eqn:Ed;
               [|eapply assoc_dirs_of; exact Ed | discriminate Hl].
             rewrite lookup_below_file in Hl; [discriminate Hl|].
             destruct q; discriminate. }
           replace (top ++ d :: q) with ((top ++ [d]) ++ q)
             by (rewrite <- app_assoc; reflexivity).
           apply (C2 _ _ _ _ _ Hd).
           rewrite (packed_lookup h X w w1 e1 (top ++ [d]) (q ++ [f]) P1).
           ++ rewrite <- app_assoc. exact Hl.
           ++ destruct Htop as (q0 & ->). exists (q0 ++ [d]).
              rewrite app_assoc. reflexivity.
      * apply in_or_app. right.
        assert (Hr : In top' (map (fun d => top ++ [d]) (FS.dirs_of es) ++ rest))
          by (apply in_or_app; right; exact Hin).
        apply (C2 _ _ _ _ _ Hr).
        rewrite (packed_lookup h X w w1 e1 top' (q ++ [f]) P1); [exact Hl|].
        rewrite List.Forall_forall in Hrest. exact (Hrest _ Hin).
    + apply Forall_app. split; [exact S1|].
      eapply List.Forall_impl; [|exact S2].
      intros e [Hp | (p & f & x' & data' & Hp & Hl & ->)]; [left; exact Hp|].
      right. exists p, f, x', data'. split; [exact Hp|]. split; [|reflexivity].
      rewrite <- (packed_lookup h X w w1 e1 p [f] P1 Hp). exact Hl.
  - destruct (IH _ _ _ H Hrest Ha) as (evs & P & C & S).
    exists evs. split; [exact P|]. split; [|exact S].
    intros top' q f x' data' [<- | Hin] Hl; [|exact (C _ _ _ _ _ Hin Hl)].
    rewrite lookup_app, El in Hl. discriminate Hl.
Qed.

(** X9.  When packaging ends normally, the archive in the artifact
    directory holds an empty archive followed by the entries written, in
    the order of the trace and with nothing left of an older archive of
    that name; every regular file at or below the install path has its
    entry (under the name computed from its directory, deflated, with
    [0o755] or [0o644] by the executable test, and with the bytes of the
    file); every entry written is the entry of such a file; and the
    install tree is left as it was. *)
Theorem package_archives_the_tree h X fuel w w' :
  package h X fuel w = (Ok tt, w') ->
  exists evs ax,
    trace w' = trace w ++ Print (nl "Creating archive...") :: evs /\
    FS.lookup (archive_path h) (fs w')
    = Some (File ax (archive_from X (zip_empty X) evs)) /\
    (forall q f x data,
       FS.lookup (install_path h ++ q ++ [f]) (fs w) = Some (File x data) ->
       In (entry_of h (install_path h ++ q) f x data) evs) /\
    Forall (entry_of_tree h (fs w)) evs /\
    (forall q, FS.lookup (install_path h ++ q) (fs w')
               = FS.lookup (install_path h ++ q) (fs w)).
Proof.
  unfold package. intros H.
  apply bind_ok in H. destruct H as ([] & w1 & H1 & H).
  apply bind_ok in H. destruct H as ([] & w2 & H2 & H).
  injection H1 as <-.
  unfold zip_open in H2. simpl in H2.
  assert (Hz : exists ax t,
             FS.put (archive_path h) (File ax (zip_empty X)) (fs w) = Some t /\
             w2 = set_fs t (log (Print (nl "Creating archive...")) w)).
  { destruct (FS.lookup (archive_path h) (fs w)) as [[ax d | es] |];
      try discriminate H2;
      match type of H2 with
      | match ?p with _ => _ end = _ =>
          destruct p as [t |] eqn:Ep; [|discriminate H2]
      end;
      injection H2 as <-; eexists _, t; (split; [exact Ep | reflexivity]). }
  destruct Hz as (ax & t & Ep & ->).
  change (os_walk fuel [install_path h] (archive_directory h X)
            (set_fs t (log (Print (nl "Creating archive...")) w)) = (Ok tt, w'))
    in H.
  destruct (os_walk_packed h X fuel _ _ _ H) as (evs & (T & A & I) & C & S).
  - constructor; [exists []; rewrite app_nil_r; reflexivity | constructor].
  - exists ax, (zip_empty X). simpl. exact (put_lookup _ _ _ _ Ep).
  - assert (Hf : forall q, FS.lookup (install_path h ++ q) t
                           = FS.lookup (install_path h ++ q) (fs w)).
    { intros q. exact (put_frame _ _ _ _ _ (archive_away_from_install h q) Ep). }
    exists evs, ax. simpl in *.
    split; [rewrite T, <- app_assoc; reflexivity|].
    split; [apply A; exact (put_lookup _ _ _ _ Ep)|].
    split.
    + intros q f x data Hl.
      apply (C (install_path h) q f x data); [left; reflexivity|].
      rewrite Hf. exact Hl.
    + split.
      * eapply List.Forall_impl; [|exact S].
        intros e [Hp | (p & f & x & data & Hp & Hl & ->)]; [left; exact Hp|].
        right. exists p, f, x, data. split; [exact Hp|]. split; [|reflexivity].
        destruct Hp as (q & ->). rewrite <- app_assoc in *.
        rewrite <- Hf. exact Hl.
      * intros q. rewrite I. apply Hf.
Qed.

Lemma package_archives_the_tree_witness :
  exists evs ax,
    trace (snd (package Demo.linux (Demo.externals_of Demo.linux Demo.plain) 8
                  Runs.installed))
    = trace Runs.installed ++ Print (nl "Creating archive...") :: evs /\
    FS.lookup (archive_path Demo.linux)
      (fs (snd (package Demo.linux (Demo.externals_of Demo.linux Demo.plain) 8
                  Runs.installed)))
    = Some (File ax (archive_from (Demo.externals_of Demo.linux Demo.plain)
                       (zip_empty (Demo.externals_of Demo.linux Demo.plain)) evs)) /\
    In (entry_of Demo.linux (install_path Demo.linux ++ ["share"]) "README"
          false "yasm") evs.
Proof.
  destruct (package_archives_the_tree Demo.linux
              (Demo.externals_of Demo.linux Demo.plain) 8 Runs.installed
              (snd (package Demo.linux (Demo.externals_of Demo.linux Demo.plain) 8
                      Runs.installed)))
    as (evs & ax & T & A & C & _).
  - vm_compute. reflexivity.
  - exists evs, ax. split; [exact T|]. split; [exact A|].
    apply (C ["share"] "README" false "yasm"). vm_compute. reflexivity.
Defined.

(** ** What a run leaves behind *)

Lemma archive_from_app X old e1 e2 :
  archive_from X old (e1 ++ e2) = archive_from X (archive_from X old e1) e2.
Proof. unfold archive_from. apply fold_left_app. Qed.

Lemma archive_from_no_entry X old evs :
  Forall not_entry evs -> archive_from X old evs = old.
Proof.
  intros H. revert old. induction H as [| e evs He _ IH]; intros old;
    [reflexivity|].
  destruct e; try contradiction; exact (IH old).
Qed.

(** one more stage that writes no entry, in a run that ends well *)
Lemma stage_without_entry {A B} (m : M A) (k : A -> M B) w0 w pre y w' :
  trace w = trace w0 ++ pre -> Forall not_entry pre ->
  emits not_entry m ->
  bind m k w = (Ok y, w') ->
  exists x w1 pre',
    trace w1 = trace w0 ++ pre' /\ Forall not_entry pre' /\
    k x w1 = (Ok y, w').
Proof.
  intros T F Hm H. apply bind_ok in H. destruct H as (x & w1 & H1 & H2).
  destruct (Hm w) as (evs & E & Q). rewrite H1 in E. simpl in E.
  exists x, w1, (pre ++ evs).
  split; [rewrite E, T, app_assoc; reflexivity|].
  split; [apply Forall_app; split; assumption | exact H2].
Qed.

Ltac no_entry :=
  let HL := fresh "HL" in
  pose proof (local_Forall not_entry) as HL;
  unfold emits; repeat produces_step HL;
  try (apply produces_try_timeServers; [exact HL | intros ..]);
  repeat constructor.

(** a run that ends well has gone through packaging and the last stage *)
Lemma main_ends_with_package h X fuel a w w' :
  main h X fuel a w = (Ok tt, w') ->
  exists w1 w2 pre,
    trace w1 = trace w ++ pre /\ Forall not_entry pre /\
    package h X fuel w1 = (Ok tt, w2) /\
    teardown h X a w2 = (Ok tt, w').
Proof.
  unfold main. intros H.
  assert (T : trace w = trace w ++ []) by (rewrite app_nil_r; reflexivity).
  assert (F : Forall not_entry []) by constructor.
  revert T F H. generalize (@nil event) as pre. generalize w at 1 3 as w1.
  intros w1 pre T F H.
  do 14 (apply (stage_without_entry _ _ w _ _ _ _ T F) in H; [|no_entry];
         clear T F w1 pre; destruct H as (? & w1 & pre & T & F & H)).
  apply bind_ok in H. destruct H as ([] & w2 & Hp & Ht).
  exists w1, w2, pre. auto.
Qed.

Lemma source_away_from_archive h : diverge (source_path h) (archive_path h).
Proof.
  unfold source_path, archive_path, artifact_path, yasm_dir.
  rewrite <- !app_assoc. apply diverge_app. simpl. exact I.
Qed.

(** the last stage off Windows: the sources are removed when cleaning, and
    nothing else changes *)
Lemma teardown_leaves h X a w w' :
  is_win32 h = false ->
  teardown h X a w = (Ok tt, w') ->
  exists tail,
    trace w' = trace w ++ tail /\ Forall not_entry tail /\
    FS.lookup (archive_path h) (fs w') = FS.lookup (archive_path h) (fs w) /\
    (clean a = true -> FS.lookup (source_path h) (fs w') = None).
Proof.
  intros Hwin. unfold teardown, when.
  destruct (clean a).
  - unfold remove_dir. rewrite Hwin. unfold bind, print, rmtree. simpl.
    destruct (FS.lookup (source_path h) (fs w)) as [[x d | es] |];
      try discriminate.
    destruct (FS.remove (source_path h) (fs w)) as [t |] eqn:Er;
      [|discriminate].
    intros [= <-]. exists [Print "Cleaning up..."]. simpl.
    split; [reflexivity|]. split; [repeat constructor|]. split.
    + exact (remove_frame _ _ _ _ (source_away_from_archive h) Er).
    + intros _. exact (remove_lookup _ _ _ Er).
  - intros [= <-]. exists []. rewrite app_nil_r.
    split; [reflexivity|]. split; [constructor|]. split; [reflexivity|].
    discriminate.
Qed.

(** X10.  Off Windows, a run that ends normally leaves the archive in the
    artifact directory, and the archive holds exactly the entries that the
    trace of the run shows, in that order, after an empty archive (an
    older archive of that name is overwritten).  Unless [--no-clean] was
    given, the source tree is gone at the end, also when the run was told
    to reuse it with [--no-clone]. *)
Theorem normal_end_leaves_the_archive h X fuel a t env lines :
  is_win32 h = false ->
  fst (run h X fuel a t env lines) = Ok tt ->
  (exists ax,
     FS.lookup (archive_path h) (fs (snd (run h X fuel a t env lines)))
     = Some (File ax (archive_from X (zip_empty X)
                        (trace (snd (run h X fuel a t env lines)))))) /\
  (clean a = true ->
   FS.lookup (source_path h) (fs (snd (run h X fuel a t env lines))) = None).
Proof.
  intros Hwin. unfold run.
  destruct (main h X fuel a (boot t env lines)) as [o w'] eqn:E. simpl.
  intros ->.
  destruct (main_ends_with_package _ _ _ _ _ _ E) as (w1 & w2 & pre & T1 & F1 & Hp & Ht).
  destruct (package_archives_the_tree _ _ _ _ _ Hp) as (evs & ax & T2 & A2 & _).
  destruct (teardown_leaves _ _ _ _ _ Hwin Ht) as (tail & T3 & F3 & A3 & S3).
  split; [|exact S3].
  exists ax. rewrite A3, A2. f_equal. f_equal.
  rewrite T3, T2, T1. simpl.
  rewrite !archive_from_app, (archive_from_no_entry _ _ pre F1).
  change (Print (nl "Creating archive...") :: evs)
    with ([Print (nl "Creating archive...")] ++ evs).
  rewrite !archive_from_app.
  rewrite (archive_from_no_entry _ _ tail F3). reflexivity.
Qed.

Lemma normal_end_leaves_the_archive_witness :
  (exists ax,
     FS.lookup (archive_path Demo.linux) (fs (snd Demo.first_build))
     = Some (File ax (archive_from (Demo.externals_of Demo.linux Demo.plain)
                        (zip_empty (Demo.externals_of Demo.linux Demo.plain))
                        (trace (snd Demo.first_build))))) /\
  (clean Demo.flags = true ->
   FS.lookup (source_path Demo.linux) (fs (snd Demo.first_build)) = None).
Proof.
  apply (normal_end_leaves_the_archive Demo.linux
           (Demo.externals_of Demo.linux Demo.plain) 8 Demo.flags
           Demo.checkout ∅ ["y"]).
  - reflexivity.
  - vm_compute. reflexivity.
Defined.

(** ** The build directory when [cmake] starts *)

(** what follows [if not p.exists(): p.mkdir()] starts with something at
    [p] *)
Lemma produces_after_mkdir {B} P p (k : unit -> M B) :
  local P ->
  (forall w, FS.lookup p (fs w) <> None -> extends P w (snd (k tt w))) ->
  produces P (bind (path_exists p)
                (fun e => bind (when (negb e) (path_mkdir p)) k)).
Proof.
  intros HL Hk w. unfold bind at 1. unfold path_exists, FS.exists_.
  destruct (FS.lookup p (fs w)) as [n |] eqn:El.
  - unfold when, bind, ret. simpl. apply Hk. congruence.
  - unfold when, bind, path_mkdir. simpl. rewrite El.
    destruct (FS.put p (Dir []) (fs w)) as [t |] eqn:Ep;
      [|apply extends_refl, HL].
    destruct (Hk (set_fs t w)) as (evs & E & HP).
    + simpl. rewrite (put_lookup _ _ _ _ Ep). discriminate.
    + exists evs. split; [exact E | exact HP].
Qed.

Lemma bind_print {B} text (k : unit -> M B) w :
  bind (print text) k w = k tt (log (Print text) w).
Proof. reflexivity. Qed.

Lemma cmake_argv_head h a sysroot : hd "" (cmake_argv h a sysroot) = "cmake".
Proof. reflexivity. Qed.

Lemma unlocker_not_cmake home : home +:+ "/unlock-keychain" <> "cmake".
Proof.
  intros H. apply (f_equal String.length) in H. rewrite length_append in H.
  simpl in H. lia.
Qed.

Ltac not_cmake :=
  apply List.Forall_cons; [|apply List.Forall_nil];
  unfold build_path_present, parallel;
  try (destruct (is_win _)); simpl;
  let s := fresh "s" in
  let Heq := fresh "Heq" in
  intros (s & Heq);
  apply (f_equal (fun c => hd "" (argv c))) in Heq; simpl in Heq;
  first [ discriminate Heq | exfalso; exact (unlocker_not_cmake _ Heq) ].

Lemma configure_build_path h X a sysroot :
  emits (build_path_present h a) (configure h X a sysroot).
Proof.
  pose proof (local_Forall (build_path_present h a)) as HL.
  unfold emits, configure.
  stage HL ltac:(repeat produces_step HL; repeat constructor).
  apply produces_after_mkdir; [exact HL|]. intros w Hw.
  rewrite bind_print.
  eapply (extends_trans _ _ (log (Print _) w)); [exact HL | |].
  - eexists. split; [reflexivity | repeat constructor].
  - unfold subprocess_call at 1. rewrite bind_assoc.
    apply extends_popen_bind; [exact HL | |].
    + intros r. repeat constructor. intros _. exact Hw.
    + intros x. repeat produces_step HL; repeat constructor.
Qed.

Lemma main_build_path h X fuel a :
  emits (build_path_present h a) (main h X fuel a).
Proof.
  pose proof (local_Forall (build_path_present h a)) as HL.
  unfold emits, main.
  do 10 stage HL ltac:(repeat produces_step HL;
                        try solve [repeat constructor]; not_cmake).
  stage HL ltac:(apply configure_build_path).
  repeat produces_step HL.
  all: try (apply produces_try_timeServers; [exact HL | intros ..]).
  all: try solve [repeat constructor].
  all: not_cmake.
Qed.

(** X11.  Whenever [cmake] is started, there is something at the build
    path: the directory is created when it is missing, and when it cannot
    be created (no source tree, as with [--no-clone] on a fresh checkout)
    [cmake] is not started. *)
Theorem cmake_starts_in_build_path h X fuel a t env lines c before result :
  In (Call c before result) (trace (snd (run h X fuel a t env lines))) ->
  is_cmake_call h a c ->
  FS.lookup (build_path h) before <> None.
Proof.
  intros Hin Hc.
  destruct (main_build_path h X fuel a (boot t env lines)) as (evs & E & HQ).
  unfold run in Hin. rewrite E in Hin. simpl in Hin.
  rewrite List.Forall_forall in HQ. exact (HQ _ Hin Hc).
Qed.

Lemma cmake_starts_in_build_path_witness :
  FS.lookup (build_path Demo.linux)
    (Demo.before_of (Demo.event_at 19 (trace (snd Demo.first_build)))) <> None.
Proof.
  apply (cmake_starts_in_build_path Demo.linux
           (Demo.externals_of Demo.linux Demo.plain) 8 Demo.flags
           Demo.checkout ∅ ["y"]
           (Demo.call_of (Demo.event_at 19 (trace (snd Demo.first_build))))
           _ (Demo.result_of (Demo.event_at 19 (trace (snd Demo.first_build))))).
  - apply (nth_error_In _ 19). vm_compute. reflexivity.
  - exists None. vm_compute. reflexivity.
Defined.

(** ** The cleaning stage *)

Lemma diverge_app_r p q r : diverge p q -> diverge (p ++ r) q.
Proof.
  revert q. induction p as [| a p IH]; intros [| b q]; simpl; try tauto.
  destruct (String.eqb a b); [apply IH | tauto].
Qed.

Lemma modify_below f c c' rest es :
  FS.modify f (c :: c' :: rest) (Dir es)
  = match FS.assoc c es with
    | Some t' =>
        match FS.modify f (c' :: rest) t' with
        | Some t'' => Some (Dir (FS.set_assoc c t'' es))
        | None => None
        end
    | None => None
    end.
Proof. reflexivity. Qed.

(** removing an entry of a directory leaves the directory without it *)
Lemma remove_parent dir n t t' es :
  FS.remove (dir ++ [n]) t = Some t' ->
  FS.lookup dir t = Some (Dir es) ->
  FS.lookup dir t' = Some (Dir (FS.del_assoc n es)).
Proof.
  unfold FS.remove. revert t t' es.
  induction dir as [| c dir IH]; intros t t' es.
  - destruct t as [x d | es0]; [discriminate|]. simpl.
    destruct (FS.assoc n es0); [|discriminate].
    intros [= <-] [= <-]. reflexivity.
  - destruct t as [x d | es0]; [destruct dir; discriminate|].
    change ((c :: dir) ++ [n]) with (c :: dir ++ [n]).
    destruct (dir ++ [n]) as [| c' rest] eqn:Ed; [destruct dir; discriminate|].
    rewrite modify_below.
    change (FS.lookup (c :: dir) (Dir es0)) with
      (match FS.assoc c es0 with Some u => FS.lookup dir u | None => None end).
    destruct (FS.assoc c es0) as [tc |]; [|discriminate].
    destruct (FS.modify _ (c' :: rest) tc) as [tc' |] eqn:Em; [|discriminate].
    intros [= <-] Hl.
    change (FS.lookup (c :: dir) (Dir (FS.set_assoc c tc' es0))) with
      (match FS.assoc c (FS.set_assoc c tc' es0) with
       | Some u => FS.lookup dir u | None => None end).
    rewrite assoc_set_assoc_eq.
    exact (IH _ _ _ Em Hl).
Qed.

(** the loop of lines 159-160 *)
Lemma unlink_all h names :
  forall w w',
    for_each names (fun f => path_unlink (artifact_path h ++ [f])) w = (Ok tt, w') ->
    trace w' = trace w /\
    (forall p, diverge (artifact_path h) p ->
       FS.lookup p (fs w') = FS.lookup p (fs w)) /\
    forall es, FS.lookup (artifact_path h) (fs w) = Some (Dir es) ->
      exists es',
        FS.lookup (artifact_path h) (fs w') = Some (Dir es') /\
        forall n, FS.assoc n es'
                  = if FS.inb n names then None else FS.assoc n es.
Proof.
  induction names as [| f names IH]; intros w w' H.
  - injection H as <-. split; [reflexivity|]. split; [reflexivity|].
    intros es Hl. exists es. split; [exact Hl | reflexivity].
  - simpl in H. apply bind_ok in H. destruct H as ([] & w1 & H1 & H2).
    unfold path_unlink in H1. revert H1.
    destruct (FS.lookup (artifact_path h ++ [f]) (fs w)) as [[x d | es0] |];
      try discriminate.
    destruct (FS.remove (artifact_path h ++ [f]) (fs w)) as [t |] eqn:Er;
      [|discriminate].
    intros [= <-].
    destruct (IH _ _ H2) as (T & F & D). simpl in *.
    split; [exact T|]. split.
    + intros p Hp. rewrite (F p Hp).
      exact (remove_frame _ _ _ _ (diverge_app_r _ _ _ Hp) Er).
    + intros es Hl.
      destruct (D _ (remove_parent _ _ _ _ _ Er Hl)) as (es' & Hl' & Ha).
      exists es'. split; [exact Hl'|]. intros n. rewrite Ha.
      destruct (String.eqb_spec f n) as [<- | Hne].
      * destruct (FS.inb f names); [reflexivity | apply assoc_del_assoc_eq].
      * destruct (FS.inb n names); [reflexivity|].
        apply assoc_del_assoc_ne. congruence.
Qed.

Lemma names_of_bound es n t : FS.assoc n es = Some t -> FS.inb n (FS.names_of es) = true.
Proof.
  intros Ha. apply inb_In. unfold FS.names_of.
  apply (in_map fst _ (n, t)). apply listing_assoc; [exact Ha | reflexivity].
Qed.

Lemma nothing_bound es : (forall n, FS.assoc n es = None) -> es = [].
Proof.
  destruct es as [| [m u] es]; [reflexivity|]. intros H. specialize (H m).
  simpl in H. rewrite String.eqb_refl in H. discriminate H.
Qed.

(** [if p.exists(): remove_dir(p)], off Windows *)
Lemma remove_dir_if_exists h X p w w' :
  is_win32 h = false ->
  when (FS.exists_ p (fs w)) (remove_dir h X p) w = (Ok tt, w') ->
  trace w' = trace w /\ FS.lookup p (fs w') = None /\
  forall q, diverge p q -> FS.lookup q (fs w') = FS.lookup q (fs w).
Proof.
  intros Hwin. unfold when, FS.exists_, remove_dir. rewrite Hwin. unfold rmtree.
  destruct (FS.lookup p (fs w)) as [[x d | es] |] eqn:El;
    cbn beta iota; rewrite ?El; try discriminate.
  - destruct (FS.remove p (fs w)) as [t |] eqn:Er; [|discriminate].
    intros [= <-]. simpl. split; [reflexivity|].
    split; [exact (remove_lookup _ _ _ Er)|].
    intros q Hq. exact (remove_frame _ _ _ _ Hq Er).
  - intros [= <-]. auto.
Qed.

(** [if p.exists(): p.unlink()] *)
Lemma unlink_if_exists p w w' :
  when (FS.exists_ p (fs w)) (path_unlink p) w = (Ok tt, w') ->
  trace w' = trace w /\ FS.lookup p (fs w') = None /\
  forall q, diverge p q -> FS.lookup q (fs w') = FS.lookup q (fs w).
Proof.
  unfold when, FS.exists_, path_unlink.
  destruct (FS.lookup p (fs w)) as [[x d | es] |] eqn:El;
    cbn beta iota; rewrite ?El; try discriminate.
  - destruct (FS.remove p (fs w)) as [t |] eqn:Er; [|discriminate].
    intros [= <-]. simpl. split; [reflexivity|].
    split; [exact (remove_lookup _ _ _ Er)|].
    intros q Hq. exact (remove_frame _ _ _ _ Hq Er).
  - intros [= <-]. auto.
Qed.

Lemma listing_bound seen es n :
  In n (map fst (FS.listing seen es)) -> FS.assoc n es <> None.
Proof.
  revert seen. induction es as [| [m u] es IH]; intros seen; simpl; [tauto|].
  destruct (String.eqb_spec m n) as [-> | Hne]; [discriminate|].
  destruct (FS.inb m seen); [apply IH|].
  intros [Heq | Hin]; [contradiction | exact (IH _ Hin)].
Qed.

(** what is there can be removed *)
Lemma remove_defined p t x :
  p <> [] -> FS.lookup p t = Some x -> exists t', FS.remove p t = Some t'.
Proof.
  unfold FS.remove. revert t.
  induction p as [| c p IH]; intros t Hp; [contradiction|].
  destruct t as [y d | es]; [discriminate|].
  change (FS.lookup (c :: p) (Dir es)) with
    (match FS.assoc c es with Some u => FS.lookup p u | None => None end).
  destruct (FS.assoc c es) as [tc |] eqn:Ea; [|discriminate].
  destruct p as [| c' rest].
  - intros _. simpl. rewrite Ea. eauto.
  - intros Hl. rewrite modify_below, Ea.
    destruct (IH tc ltac:(discriminate) Hl) as (t'' & ->). eauto.
Qed.

(** the loop of lines 159-160 stops at a directory *)
Lemma unlink_all_stops h names :
  forall w es n sub,
    FS.lookup (artifact_path h) (fs w) = Some (Dir es) ->
    In n names -> FS.assoc n es = Some (Dir sub) ->
    List.NoDup names ->
    (forall m, In m names -> FS.assoc m es <> None) ->
    exists e w',
      for_each names (fun f => path_unlink (artifact_path h ++ [f])) w
      = (Raise e, w') /\
      trace w' = trace w /\
      forall p, diverge (artifact_path h) p ->
        FS.lookup p (fs w') = FS.lookup p (fs w).
Proof.
  induction names as [| f names IH]; intros w es n sub Hl Hin Hn Hnd Hb;
    [destruct Hin|].
  change (for_each (f :: names) (fun f => path_unlink (artifact_path h ++ [f])) w)
    with (bind (path_unlink (artifact_path h ++ [f]))
            (fun _ => for_each names
                        (fun f => path_unlink (artifact_path h ++ [f]))) w).
  rewrite bind_run. unfold path_unlink at 1.
  assert (El : FS.lookup (artifact_path h ++ [f]) (fs w) = FS.assoc f es).
  { rewrite lookup_app, Hl. simpl. destruct (FS.assoc f es); reflexivity. }
  rewrite El.
  destruct (FS.assoc f es) as [[x d | es0] |] eqn:Ea.
  - destruct (remove_defined (artifact_path h ++ [f]) (fs w) (File x d))
      as (t & Er); [destruct (artifact_path h); discriminate
                   | rewrite El; reflexivity |].
    rewrite Er.
    assert (Hne : f <> n) by congruence.
    assert (Hin' : In n names) by (destruct Hin; [contradiction | assumption]).
    inversion Hnd as [| ? ? Hf Hnd']; subst.
    destruct (IH (set_fs t w) (FS.del_assoc f es) n sub) as (e & w' & Hr & T & F).
    + exact (remove_parent _ _ _ _ _ Er Hl).
    + exact Hin'.
    + rewrite assoc_del_assoc_ne; [exact Hn | congruence].
    + exact Hnd'.
    + intros m Hm. rewrite assoc_del_assoc_ne; [apply Hb; right; exact Hm|].
      intros ->. exact (Hf Hm).
    + exists e, w'. split; [exact Hr|]. split; [exact T|].
      intros p Hp. rewrite (F p Hp). simpl.
      exact (remove_frame _ _ _ _ (diverge_app_r _ _ _ Hp) Er).
  - exists IsADirectoryError, w. auto.
  - exfalso. apply (Hb f); [left; reflexivity | exact Ea].
Qed.

Lemma artifacts_beside_build h : diverge (artifact_path h) (build_path h).
Proof.
  unfold artifact_path, build_path, source_path, yasm_dir.
  rewrite <- !app_assoc. apply diverge_app. simpl. exact I.
Qed.

Lemma artifacts_beside_cache h :
  diverge (base_dir h ++ ["CMakeCache.txt"]) (artifact_path h).
Proof. unfold artifact_path. apply diverge_app. simpl. exact I. Qed.

Lemma build_beside_cache h :
  diverge (base_dir h ++ ["CMakeCache.txt"]) (build_path h).
Proof.
  unfold artifact_path, build_path, source_path, yasm_dir.
  rewrite <- !app_assoc. apply diverge_app. simpl. exact I.
Qed.

(** X12.  On a platform other than Windows, when the cleaning of [--clean]
    comes to its end, the artifact directory (if it is one) is empty, there is
    nothing left at the build path and no [CMakeCache.txt] in the base
    directory; every path that lies beside these three is as it was, and
    nothing was printed and no program was run. *)
Theorem clean_leaves_nothing_behind h X a w w' :
  is_win32 h = false -> clean a = true ->
  clean_stage h X a w = (Ok tt, w') ->
  (forall es, FS.lookup (artifact_path h) (fs w) = Some (Dir es) ->
     FS.lookup (artifact_path h) (fs w') = Some (Dir [])) /\
  FS.lookup (build_path h) (fs w') = None /\
  FS.lookup (base_dir h ++ ["CMakeCache.txt"]) (fs w') = None /\
  (forall p, diverge (artifact_path h) p -> diverge (build_path h) p ->
     diverge (base_dir h ++ ["CMakeCache.txt"]) p ->
     FS.lookup p (fs w') = FS.lookup p (fs w)) /\
  trace w' = trace w.
Proof.
  intros Hwin Hc H. unfold clean_stage in H. rewrite Hc in H. simpl when in H.
  apply bind_ok in H. destruct H as (olds & w1 & Hg & H).
  apply bind_ok in H. destruct H as ([] & w2 & Hu & H).
  apply bind_ok in H. destruct H as (e & w3 & He & H).
  apply bind_ok in H. destruct H as ([] & w4 & Hr & H).
  apply bind_ok in H. destruct H as (c & w5 & Hx & H).
  injection He as <- <-. injection Hx as <- <-.
  destruct (unlink_all _ _ _ _ Hu) as (T1 & F1 & D1).
  destruct (remove_dir_if_exists _ _ _ _ _ Hwin Hr) as (T2 & N2 & F2).
  destruct (unlink_if_exists _ _ _ H) as (T3 & N3 & F3).
  assert (Hw1 : w1 = w).
  { unfold path_glob_star in Hg.
    destruct (FS.lookup (artifact_path h) (fs w)) as [[|] |]; congruence. }
  subst w1.
  split; [|split; [|split; [|split]]].
  - intros es Hl.
    rewrite (F3 _ (artifacts_beside_cache h)).
    rewrite (F2 _ (diverge_sym _ _ (artifacts_beside_build h))).
    destruct (D1 es Hl) as (es' & Hl' & Ha). rewrite Hl'. do 2 f_equal.
    apply nothing_bound. intros n. rewrite Ha.
    unfold path_glob_star in Hg. rewrite Hl in Hg. injection Hg as <-.
    destruct (FS.assoc n es) as [t |] eqn:E.
    + rewrite (names_of_bound _ _ _ E). reflexivity.
    + destruct (FS.inb n (FS.names_of es)); reflexivity.
  - rewrite (F3 _ (build_beside_cache h)). exact N2.
  - exact N3.
  - intros p Ha Hb Hcache. rewrite (F3 _ Hcache), (F2 _ Hb). exact (F1 _ Ha).
  - congruence.
Qed.

Lemma clean_leaves_nothing_behind_witness :
  FS.lookup (artifact_path Demo.linux)
    (fs (snd (clean_stage Demo.linux (Demo.externals_of Demo.linux Demo.plain)
                Demo.flags Runs.stale)))
  = Some (Dir []) /\
  FS.lookup (build_path Demo.linux)
    (fs (snd (clean_stage Demo.linux (Demo.externals_of Demo.linux Demo.plain)
                Demo.flags Runs.stale)))
  = None /\
  FS.lookup (patches_path Demo.linux)
    (fs (snd (clean_stage Demo.linux (Demo.externals_of Demo.linux Demo.plain)
                Demo.flags Runs.stale)))
  = Some Demo.patches_dir.
Proof.
  destruct (clean_leaves_nothing_behind Demo.linux
              (Demo.externals_of Demo.linux Demo.plain) Demo.flags Runs.stale
              (snd (clean_stage Demo.linux
                      (Demo.externals_of Demo.linux Demo.plain)
                      Demo.flags Runs.stale)))
    as (Ha & Hb & _ & Hf & _); [reflexivity | reflexivity | reflexivity |].
  split; [eapply Ha; reflexivity|]. split; [exact Hb|].
  rewrite Hf; [reflexivity | exact I | exact I | exact I].
Defined.

(** X13.  A subdirectory in the artifact directory makes the cleaning of
    [--clean] die with an exception: the loop unlinks what it finds there and
    a directory cannot be unlinked.  The build directory has not been touched
    by then, and nothing was printed. *)
Theorem clean_stops_at_a_subdirectory h X a w es n sub :
  clean a = true ->
  FS.lookup (artifact_path h) (fs w) = Some (Dir es) ->
  FS.assoc n es = Some (Dir sub) ->
  exists e w',
    clean_stage h X a w = (Raise e, w') /\
    FS.lookup (build_path h) (fs w') = FS.lookup (build_path h) (fs w) /\
    trace w' = trace w.
Proof.
  intros Hc Hl Hn. unfold clean_stage. rewrite Hc. simpl when.
  rewrite bind_run. unfold path_glob_star at 1. rewrite Hl.
  destruct (unlink_all_stops h (FS.names_of es) w es n sub Hl)
    as (e & w' & Hr & T & F).
  - apply inb_In. exact (names_of_bound _ _ _ Hn).
  - exact Hn.
  - apply names_of_NoDup.
  - intros m. apply listing_bound.
  - exists e, w'. rewrite bind_run, Hr.
    split; [reflexivity|]. split; [|exact T].
    apply F, artifacts_beside_build.
Qed.

Lemma clean_stops_at_a_subdirectory_witness :
  exists e w',
    clean_stage Demo.linux (Demo.externals_of Demo.linux Demo.plain)
      Demo.flags Runs.nested = (Raise e, w') /\
    FS.lookup (build_path Demo.linux) (fs w')
    = FS.lookup (build_path Demo.linux) (fs Runs.nested) /\
    trace w' = trace Runs.nested.
Proof.
  eapply (clean_stops_at_a_subdirectory Demo.linux _ Demo.flags Runs.nested
            _ "unpacked" []); reflexivity.
Defined.
(** ** The sysroot on macOS *)

Lemma darwin_not_win h : is_darwin h = true -> is_win h = false.
Proof.
  unfold is_darwin, is_win. intros H. apply String.eqb_eq in H. rewrite H.
  reflexivity.
Qed.

Lemma main_after_sysroot h X fuel a w :
  is_darwin h = true ->
  main h X fuel a w
  = bind (find_sysroot h X) (after_sysroot h X fuel a) w.
Proof.
  intros Hd. unfold main, import_vcvars. rewrite (darwin_not_win h Hd).
  reflexivity.
Qed.

Lemma unlocker_not_xcode_select home :
  home +:+ "/unlock-keychain" <> "xcode-select".
Proof.
  intros H. apply (f_equal String.length) in H. rewrite length_append in H.
  simpl in H. lia.
Qed.

Ltac settled :=
  apply List.Forall_cons; [|apply List.Forall_nil];
  unfold sysroot_settled, parallel;
  try (destruct (is_win _)); simpl;
  (split;
   [ let Heq := fresh "Heq" in
     intros Heq;
     apply (f_equal (fun c => (via_shell c, hd "" (argv c)))) in Heq;
     simpl in Heq;
     first [ discriminate Heq
           | injection Heq as Heq; exfalso;
             exact (unlocker_not_xcode_select _ Heq) ]
   | let s := fresh "s" in
     let Heq := fresh "Heq" in
     intros (s & Heq);
     first [ reflexivity
           | apply (f_equal (fun c => hd "" (argv c))) in Heq; simpl in Heq;
             first [ discriminate Heq
                   | exfalso; exact (unlocker_not_cmake _ Heq) ] ] ]).

Lemma after_sysroot_settled h X fuel a sysroot :
  emits (sysroot_settled h a sysroot) (after_sysroot h X fuel a sysroot).
Proof.
  pose proof (local_Forall (sysroot_settled h a sysroot)) as HL.
  unfold emits, after_sysroot.
  repeat guarded_step HL.
  all: try solve [repeat constructor].
  all: settled.
Qed.

Lemma find_sysroot_clt h X w n :
  is_darwin h = true -> FS.lookup clt_sdk (fs w) = Some n ->
  find_sysroot h X w
  = (Ok (Some clt_sysroot),
     log (Print ("Sysroot is                   " +:+ clt_sysroot))
       (if FS.exists_ ["Applications"; "Xcode.app"] (fs w)
        then log (Print both_installed) w else w)).
Proof.
  intros Hd Hl. unfold find_sysroot. rewrite Hd.
  rewrite bind_run. unfold path_exists at 1, FS.exists_ at 1. rewrite Hl.
  rewrite bind_run. rewrite bind_run. unfold path_exists at 1.
  destruct (FS.exists_ ["Applications"; "Xcode.app"] (fs w)); reflexivity.
Qed.


Lemma settled_from h X fuel a sysroot w :
  exists evs,
    trace (snd (after_sysroot h X fuel a sysroot w)) = trace w ++ evs /\
    Forall (sysroot_settled h a sysroot) evs.
Proof. exact (after_sysroot_settled h X fuel a sysroot w). Qed.

(** X14.  On macOS, when the SDK of the command line tools is there,
    [xcode-select] is never consulted and [cmake] is given that SDK as
    [CMAKE_OSX_SYSROOT]; the run starts with the warning that both are
    installed exactly when [/Applications/Xcode.app] is there as well. *)
Theorem command_line_tools_sdk_is_preferred h X fuel a t env lines :
  is_darwin h = true ->
  FS.lookup clt_sdk t <> None ->
  Forall (sysroot_settled h a (Some clt_sysroot))
    (trace (snd (run h X fuel a t env lines))) /\
  (hd_error (trace (snd (run h X fuel a t env lines)))
   = Some (Print both_installed)
   <-> FS.lookup ["Applications"; "Xcode.app"] t <> None).
Proof.
  intros Hd Hl. unfold run. rewrite (main_after_sysroot _ _ _ _ _ Hd).
  destruct (FS.lookup clt_sdk t) as [n |] eqn:El; [clear Hl | contradiction].
  rewrite bind_run, (find_sysroot_clt h X (boot t env lines) n Hd El).
  match goal with
  | |- context [after_sysroot h X fuel a ?s ?w] =>
      destruct (settled_from h X fuel a s w) as (evs & E & HQ)
  end.
  rewrite E. clear E. unfold FS.exists_. cbn [fs boot].
  destruct (FS.lookup ["Applications"; "Xcode.app"] t) as [x |]; cbn [trace log boot app].
  - split.
    + repeat (apply List.Forall_cons; [exact I|]). exact HQ.
    + split; [discriminate | reflexivity].
  - split.
    + repeat (apply List.Forall_cons; [exact I|]). exact HQ.
    + split; [discriminate | intros H; contradiction].
Qed.

Lemma command_line_tools_sdk_is_preferred_witness :
  Forall (sysroot_settled Demo.darwin Demo.mac_signing (Some clt_sysroot))
    (trace (snd Demo.mac_signed)) /\
  (hd_error (trace (snd Demo.mac_signed)) = Some (Print both_installed)
   <-> FS.lookup ["Applications"; "Xcode.app"] (Demo.mac_checkout true) <> None).
Proof.
  apply (command_line_tools_sdk_is_preferred Demo.darwin
           (Demo.externals_of Demo.darwin Demo.universal_build) 8
           Demo.mac_signing (Demo.mac_checkout true) Demo.mac_env []).
  - reflexivity.
  - discriminate.
Defined.


(** ** Removing a directory on Windows *)

Lemma remove_dir_win32 h X p w :
  is_win32 h = true ->
  remove_dir h X p w
  = (Ok tt,
     log (Call (rmdir_call h p) (fs w)
            (Some (returncode (os_exec X (rmdir_call h p) w))))
       (set_fs (fs_after (os_exec X (rmdir_call h p) w)) w)).
Proof.
  intros Hw. unfold remove_dir. rewrite Hw.
  unfold subprocess_call_shell. rewrite !bind_run. unfold popen.
  fold (rmdir_call h p). reflexivity.
Qed.

(** a program is started, and what follows only adds to the trace *)
Lemma popen_then {B} X c (k : Z * string -> M B) w :
  (forall x, produces (fun _ => True) (k x)) ->
  exists result rest,
    trace (snd (bind (popen X c) k w)) = trace w ++ Call c (fs w) result :: rest.
Proof.
  intros Hk. unfold bind, popen.
  destruct (via_shell c || launched (os_exec X c w)).
  - match goal with
    | |- context [k ?x ?w1] => destruct (Hk x w1) as (evs & E & _)
    end.
    rewrite E. cbn [trace log set_fs]. rewrite <- app_assoc.
    do 2 eexists. reflexivity.
  - exists None, []. reflexivity.
Qed.

(** X16.  On Windows the status of the shell's [rmdir] is not looked at:
    when a source tree is there, cloning prints its heading, starts [rmdir]
    on the source path and then starts [git clone] whatever [rmdir] returned,
    on the file system [rmdir] left behind (so possibly with the old tree
    still in place). *)
Theorem rmdir_status_is_ignored h X a patches w :
  is_win32 h = true ->
  no_clone a = false ->
  FS.lookup (source_path h) (fs w) <> None ->
  let r := os_exec X (rmdir_call h (source_path h))
             (log (Print (nl "Cloning yasm...")) w) in
  exists result rest,
    trace (snd (acquire h X a patches w))
    = trace w
      ++ [Print (nl "Cloning yasm...");
          Call (rmdir_call h (source_path h)) (fs w) (Some (returncode r));
          Call (clone_call h) (fs_after r) result]
      ++ rest.
Proof.
  intros Hw Hn Hs r. unfold acquire. rewrite Hn. cbn [negb].
  rewrite bind_print, bind_run.
  assert (Hy : FS.exists_ (yasm_dir h) (fs w) = true).
  { unfold FS.exists_. unfold source_path in Hs. rewrite lookup_app in Hs.
    destruct (FS.lookup (yasm_dir h) (fs w)); [reflexivity | contradiction]. }
  unfold path_exists at 1. cbn [fs log]. rewrite Hy. cbn [negb when].
  rewrite bind_run. unfold ret at 1. rewrite bind_run.
  unfold path_exists at 1, FS.exists_ at 1. cbn [fs log].
  destruct (FS.lookup (source_path h) (fs w)) as [n |] eqn:El; [|contradiction].
  cbn [when]. rewrite bind_run, (remove_dir_win32 h X _ _ Hw). fold r.
  unfold subprocess_call at 1. rewrite bind_assoc. fold (clone_call h).
  match goal with
  | |- context [bind (popen X (clone_call h)) ?k ?w1] =>
      destruct (popen_then X (clone_call h) k w1) as (result & rest & E)
  end.
  - intros x. any_trace.
  - rewrite E. cbn [trace log set_fs fs]. rewrite <- !app_assoc.
    exists result, rest. reflexivity.
Qed.

Lemma rmdir_status_is_ignored_witness :
  exists result rest,
    trace (snd (acquire Demo.windows
                  (Demo.externals_of Demo.windows Runs.rmdir_fails)
                  Demo.flags [] (boot Demo.built ∅ [])))
    = [Print (nl "Cloning yasm...");
       Call (rmdir_call Demo.windows (source_path Demo.windows)) Demo.built
         (Some 1%Z);
       Call (clone_call Demo.windows) Demo.built result]
      ++ rest.
Proof.
  apply (rmdir_status_is_ignored Demo.windows
           (Demo.externals_of Demo.windows Runs.rmdir_fails)
           Demo.flags [] (boot Demo.built ∅ [])).
  - reflexivity.
  - reflexivity.
  - vm_compute. discriminate.
Defined.
